(** * ContractGuard: the clause risk engine of [backend/services/contractService.js]

    A shallow embedding of the rule-based detector, the merger, the scorer,
    the recommendation selector and the orchestration of [analyzeContract],
    followed by the properties of the engine's specification.

    Conventions of the embedding.
    - A JavaScript string is a [string]: a sequence of code units below 256.
    - A JavaScript number the scorers compute with is an IEEE 754 binary64
      value, with the operations of [SpecFloat] (round to nearest, ties to
      even); integers that are only compared or counted are in [Z], and
      [None] stands for [NaN] in the overall score once it is rounded.
    - An object literal used as a lookup table is the list of its own
      properties, in source order; indexing it with a string also finds the
      properties inherited from [Object.prototype], which are truthy and are
      not numbers.
    - The fields of a clause have the types the data model gives them:
      strings and a number.  A title or an explanation taken from a lookup
      table can be a value that is not a string, when the key names an
      inherited property.
    - The two external completion calls are inputs of the model: the outcome
      of the bulk call and, per clause position, of the explanation call. *)

From Stdlib Require Import ZArith QArith Qround List String Ascii Bool Lia Lqa.
From Stdlib Require Import DecimalString Permutation SpecFloat.
Import ListNotations.
Open Scope string_scope.
Open Scope Z_scope.

(** ** JavaScript values *)

Module JS.

(** The own properties of an object literal: the value written for [key],
    if the literal has one. *)
Fixpoint get {A : Type} (table : list (string * A)) (key : string) : option A :=
  match table with
  | [] => None
  | (k, v) :: rest => if String.eqb k key then Some v else get rest key
  end.

(** The names every object literal inherits from [Object.prototype]. *)
Definition prototypeKeys : list string :=
  ["constructor"; "__defineGetter__"; "__defineSetter__"; "hasOwnProperty";
   "__lookupGetter__"; "__lookupSetter__"; "isPrototypeOf";
   "propertyIsEnumerable"; "toString"; "valueOf"; "__proto__";
   "toLocaleString"].

(** What [table[key]] evaluates to: the literal's own value, a function or
    object found on the prototype, or [undefined]. *)
Inductive slot (A : Type) : Type :=
| Own (v : A)
| Inherited
| Undefined.

Arguments Own {A} v.
Arguments Inherited {A}.
Arguments Undefined {A}.

(** [table[key]] on an object literal. *)
Definition index {A : Type} (table : list (string * A)) (key : string) : slot A :=
  match get table key with
  | Some v => Own v
  | None =>
      if existsb (String.eqb key) prototypeKeys then Inherited else Undefined
  end.

(** A JavaScript number: an IEEE 754 binary64 value. *)
Definition number : Type := spec_float.

Definition nan : number := S754_nan.

Definition add : number -> number -> number := SFadd 53 1024.
Definition mul : number -> number -> number := SFmul 53 1024.
Definition div : number -> number -> number := SFdiv 53 1024.

(** An integer literal, or an integer field read as a number. *)
Definition ofZ (z : Z) : number := binary_normalize 53 1024 z 0 false.

(** The decimal literal [n/d], for [d] a power of ten: the double nearest
    to the quotient. *)
Definition lit (n d : Z) : number := div (ofZ n) (ofZ d).

(** Decidable equality of doubles as values of the embedding. *)
Definition same (x y : number) : bool :=
  match x, y with
  | S754_zero a, S754_zero b => Bool.eqb a b
  | S754_infinity a, S754_infinity b => Bool.eqb a b
  | S754_nan, S754_nan => true
  | S754_finite a m e, S754_finite b n f =>
      Bool.eqb a b && Pos.eqb m n && Z.eqb e f
  | _, _ => false
  end.

(** The numbers [||] skips: zero and [NaN]. *)
Definition falsy (x : number) : bool :=
  match x with
  | S754_zero _ | S754_nan => true
  | _ => false
  end.

(** [table[key] || d] used as a factor, for a table of numbers.  An
    inherited property is truthy, so the default is skipped, and it is not
    a number: the factor is [NaN]. *)
Definition or_number (x : slot number) (d : number) : number :=
  match x with
  | Own v => if falsy v then d else v
  | Inherited => nan
  | Undefined => d
  end.

(** [table[key]] used as a factor: [undefined] and inherited properties
    convert to [NaN]. *)
Definition to_number (x : slot number) : number :=
  match x with
  | Own v => v
  | Inherited => nan
  | Undefined => nan
  end.

(** [x || d] for a number. *)
Definition or_else (x d : number) : number := if falsy x then d else x.

(** [x <= y]: false when either side is [NaN]. *)
Definition le : number -> number -> bool := SFleb.

(** A value that is a string when it is well typed; [NotString] stands for
    the functions and the object found on [Object.prototype]. *)
Inductive text : Type :=
| Str (s : string)
| NotString.

(** [table[key] || d] for a table of strings: the empty string and
    [undefined] are falsy, an inherited property is truthy. *)
Definition or_text (x : slot string) (d : string) : text :=
  match x with
  | Own s => if String.eqb s "" then Str d else Str s
  | Inherited => NotString
  | Undefined => Str d
  end.

(** [x || d] for a field that holds a text or is missing. *)
Definition or_field (x : option text) (d : text) : text :=
  match x with
  | Some (Str s) => if String.eqb s "" then d else Str s
  | Some NotString => NotString
  | None => d
  end.

(** [x || d] for a number that is only stored, never computed with. *)
Definition or_num (x : option Q) (d : Q) : Q :=
  match x with
  | Some q => if Qeq_bool q 0 then d else q
  | None => d
  end.

(** [x || d] for an integer field: [undefined] and [0] are falsy. *)
Definition or_int (x : option Z) (d : Z) : Z :=
  match x with
  | Some z => if z =? 0 then d else z
  | None => d
  end.

(** [x || d] for a string: [undefined] and the empty string are falsy. *)
Definition or_str (x : option string) (d : string) : string :=
  match x with
  | Some s => if String.eqb s "" then d else s
  | None => d
  end.

(** [x || d] for an array: every array is truthy. *)
Definition or_arr {A : Type} (x : option (list A)) (d : list A) : list A :=
  match x with
  | Some l => l
  | None => d
  end.

(** The result of [Math.round]: [NaN], an infinity, or an integer. *)
Inductive rounded : Type :=
| RNaN
| RInf (negative : bool)
| RInt (z : Z).

(** [Math.round]: the nearest integer, ties towards plus infinity.  A finite
    double is [m * 2^e]; for a negative exponent [-k] the result is the floor
    of [(2 m + 2^k) / 2^(k+1)]. *)
Definition Math_round (x : number) : rounded :=
  match x with
  | S754_nan => RNaN
  | S754_infinity s => RInf s
  | S754_zero _ => RInt 0
  | S754_finite s m e =>
      let v := if s then Z.neg m else Z.pos m in
      match e with
      | Z.neg k => RInt ((2 * v + 2 ^ Z.pos k) / 2 ^ (Z.pos k + 1))
      | _ => RInt (v * 2 ^ e)
      end
  end.

(** The result of [Math.min(k, x)] for an integer [k]. *)
Inductive capped : Type :=
| CNaN
| CNegInf
| CInt (z : Z).

Definition Math_min (k : Z) (x : rounded) : capped :=
  match x with
  | RNaN => CNaN
  | RInf true => CNegInf
  | RInf false => CInt k
  | RInt z => CInt (Z.min k z)
  end.

(** [Math.max(x, k)] for an integer [k]: an integer, or [None] for [NaN]. *)
Definition Math_max (x : capped) (k : Z) : option Z :=
  match x with
  | CNaN => None
  | CNegInf => Some k
  | CInt z => Some (Z.max z k)
  end.

(** The result of [Math.round] as a number again. *)
Definition ofRounded (x : rounded) : number :=
  match x with
  | RNaN => nan
  | RInf s => S754_infinity s
  | RInt z => ofZ z
  end.

(** [x >= k]: false on [NaN]. *)
Definition ge (x : option Z) (k : Z) : bool :=
  match x with
  | Some z => k <=? z
  | None => false
  end.

(** [s.substring(0, n)]. *)
Definition prefix (n : nat) (s : string) : string := String.substring 0 n s.

End JS.

Coercion JS.Str : string >-> JS.text.

(** ** Data model *)

(** A risky clause, as pushed by the detector or decoded from the model's
    reply.  A missing [riskScore] behaves as [0] under [||]. *)
Record clause : Type := mkClause {
  title : JS.text;
  quote : string;
  explanation : option JS.text;
  severity : string;
  category : string;
  riskScore : JS.number
}.

(** ** Per-clause score (detector side) *)

Definition severityScores : list (string * JS.number) :=
  [("Low", JS.ofZ 3); ("Medium", JS.ofZ 6); ("High", JS.ofZ 9)].

Definition categoryWeights : list (string * JS.number) :=
  [("termination", JS.ofZ 1);
   ("penalty", JS.lit 9 10);
   ("non-compete", JS.ofZ 1);
   ("auto-renewal", JS.lit 7 10);
   ("arbitration", JS.lit 8 10);
   ("liability", JS.lit 8 10);
   ("hidden-fees", JS.lit 6 10);
   ("refund-restrictions", JS.lit 7 10)].

Definition calculateClauseRiskScore (sev cat : string) : JS.rounded :=
  let baseScore := JS.or_number (JS.index severityScores sev) (JS.ofZ 5) in
  let weight := JS.or_number (JS.index categoryWeights cat) (JS.lit 8 10) in
  JS.Math_round (JS.mul baseScore weight).

(** ** Overall score *)

Definition severityMultiplier : list (string * JS.number) :=
  [("Low", JS.ofZ 1); ("Medium", JS.ofZ 2); ("High", JS.ofZ 3)].

Definition categoryWeight : list (string * JS.number) :=
  [("termination", JS.lit 9 10);
   ("penalty", JS.lit 8 10);
   ("non-compete", JS.lit 9 10);
   ("auto-renewal", JS.lit 6 10);
   ("arbitration", JS.lit 7 10);
   ("liability", JS.lit 8 10);
   ("hidden-fees", JS.lit 6 10);
   ("refund-restrictions", JS.lit 7 10);
   ("other", JS.lit 7 10)].

(** The weight the overall scorer applies to a category:
    [categoryWeight[clause.category] || 0.7]. *)
Definition weightOf (cat : string) : JS.number :=
  JS.or_number (JS.index categoryWeight cat) (JS.lit 7 10).

(** [(clause.riskScore || 5) * severityMultiplier[clause.severity] *
     (categoryWeight[clause.category] || 0.7)]. *)
Definition clauseScore (c : clause) : JS.number :=
  JS.mul
    (JS.mul (JS.or_else (riskScore c) (JS.ofZ 5))
            (JS.to_number (JS.index severityMultiplier (severity c))))
    (weightOf (category c)).

(** The body of the [forEach]: the pair is [(totalScore, maxPossibleScore)]. *)
Definition scoreStep (acc : JS.number * JS.number) (c : clause)
    : JS.number * JS.number :=
  (JS.add (fst acc) (clauseScore c), JS.add (snd acc) (JS.ofZ 30)).

Definition calculateOverallRiskScore (riskyClauses : list clause) : option Z :=
  if (List.length riskyClauses =? 0)%nat then Some 20
  else
    let '(totalScore, maxPossibleScore) :=
      fold_left scoreStep riskyClauses (JS.ofZ 0, JS.ofZ 0) in
    let normalizedScore :=
      JS.Math_min 100
        (JS.Math_round
           (JS.mul (JS.div totalScore maxPossibleScore) (JS.ofZ 100))) in
    let minScore := Z.min (30 + Z.of_nat (List.length riskyClauses) * 5) 70 in
    JS.Math_max normalizedScore minScore.

(** ** Recommendation *)

Definition isHigh (c : clause) : bool := String.eqb (severity c) "High".

Definition generateRecommendation (overallRiskScore : option Z)
    (riskyClauses : list clause) : string :=
  let highRiskClauses := Z.of_nat (List.length (filter isHigh riskyClauses)) in
  if JS.ge overallRiskScore 70 || (2 <=? highRiskClauses) then "Avoid signing"
  else if JS.ge overallRiskScore 40 || (1 <=? highRiskClauses) then "Review carefully"
  else "Safe to sign".

(** ** Strings *)

Module Text.

Definition inRange (lo hi n : nat) : bool := ((lo <=? n) && (n <=? hi))%nat.

(** Lower case of one code unit: A-Z, and the upper-case letters of Latin-1. *)
Definition lower (c : ascii) : ascii :=
  let n := nat_of_ascii c in
  if inRange 65 90 n || (inRange 192 222 n && negb (n =? 215)%nat)
  then ascii_of_nat (n + 32)
  else c.

Fixpoint toLowerCase (s : string) : string :=
  match s with
  | EmptyString => EmptyString
  | String c rest => String (lower c) (toLowerCase rest)
  end.

(** White space removed by [trim]: TAB, LF, VT, FF, CR, SP, NBSP. *)
Definition isSpace (c : ascii) : bool :=
  let n := nat_of_ascii c in
  inRange 9 13 n || (n =? 32)%nat || (n =? 160)%nat.

Fixpoint trimStart (s : string) : string :=
  match s with
  | EmptyString => EmptyString
  | String c rest => if isSpace c then trimStart rest else s
  end.

Fixpoint reverse (s acc : string) : string :=
  match s with
  | EmptyString => acc
  | String c rest => reverse rest (String c acc)
  end.

Definition trimEnd (s : string) : string :=
  reverse (trimStart (reverse s "")) "".

Definition trim (s : string) : string := trimEnd (trimStart s).

(** [s.includes(sub)]. *)
Fixpoint includes (s sub : string) : bool :=
  match s with
  | EmptyString => String.prefix sub s
  | String _ rest => String.prefix sub s || includes rest sub
  end.

(** [text.split(/[.!?]+/)]: [cur] is the piece being read, [inSep] tells
    that the previous code unit was a separator. *)
Definition isSep (c : ascii) : bool :=
  Ascii.eqb c "." || Ascii.eqb c "!" || Ascii.eqb c "?".

Fixpoint splitFrom (s cur : string) (inSep : bool) : list string :=
  match s with
  | EmptyString => [cur]
  | String c rest =>
      if isSep c then
        if inSep then splitFrom rest "" true
        else cur :: splitFrom rest "" true
      else splitFrom rest (cur ++ String c "") false
  end.

Definition splitSentences (text : string) : list string :=
  splitFrom text "" false.

Definition ofNat (n : nat) : string :=
  NilZero.string_of_uint (Nat.to_uint n).

End Text.

(** ** The regular expressions of the risk table

    Every pattern of [riskPatterns] is built from literal characters, [.],
    [.?] and [.*]; the detector recompiles each with the flags [gi]. *)

Module Regex.

Inductive atom : Type :=
| Chr (c : ascii)
| Any
| AnyOpt
| AnyStar.

(** Reads [pattern.source]. *)
Fixpoint parse (src : string) : list atom :=
  match src with
  | EmptyString => []
  | String c rest =>
      if Ascii.eqb c "." then
        match rest with
        | String d rest' =>
            if Ascii.eqb d "?" then AnyOpt :: parse rest'
            else if Ascii.eqb d "*" then AnyStar :: parse rest'
            else Any :: parse rest
        | EmptyString => Any :: parse rest
        end
      else Chr c :: parse rest
  end.

(** [.] matches every code unit but a line terminator. *)
Definition dot (c : ascii) : bool :=
  negb (Ascii.eqb c "010" || Ascii.eqb c "013").

(** Flag [i]: two code units match when they agree up to case. *)
Definition sameLetter (a c : ascii) : bool :=
  Ascii.eqb (Text.lower a) (Text.lower c).

(** Backtracking match anchored at the head of [s]: the length of the
    match, the greedy quantifiers trying their longest choice first. *)
Fixpoint exec (r : list atom) (s : string) {struct r} : option nat :=
  match r with
  | [] => Some 0%nat
  | Chr c :: r' =>
      match s with
      | String a s' => if sameLetter a c then option_map S (exec r' s') else None
      | EmptyString => None
      end
  | Any :: r' =>
      match s with
      | String a s' => if dot a then option_map S (exec r' s') else None
      | EmptyString => None
      end
  | AnyOpt :: r' =>
      match s with
      | String a s' =>
          if dot a then
            match exec r' s' with
            | Some n => Some (S n)
            | None => exec r' s
            end
          else exec r' s
      | EmptyString => exec r' s
      end
  | AnyStar :: r' =>
      (fix star (t : string) : option nat :=
         match t with
         | String a t' =>
             if dot a then
               match star t' with
               | Some n => Some (S n)
               | None => exec r' t
               end
             else exec r' t
         | EmptyString => exec r' t
         end) s
  end.

(** Flag [g]: all the matches, left to right, each search resuming where
    the previous match ended ([skip] code units are still to be passed);
    an empty match moves on by one code unit. *)
Fixpoint scan (r : list atom) (skip : nat) (s : string) : list string :=
  match s with
  | EmptyString =>
      match exec r s with
      | Some _ => [""]
      | None => []
      end
  | String _ rest =>
      match skip with
      | S k => scan r k rest
      | O =>
          match exec r s with
          | Some (S n) => JS.prefix (S n) s :: scan r n rest
          | Some O => "" :: scan r 0 rest
          | None => scan r 0 rest
          end
      end
  end.

(** [text.match(new RegExp(source, 'gi'))], with [null] read as no match. *)
Definition matchAll (source text : string) : list string :=
  scan (parse source) 0 text.

End Regex.

(** ** Rule-based detector *)

Record riskConfig : Type := mkConfig {
  patterns : list string;
  configSeverity : string;
  configCategory : string
}.

Definition riskPatterns : list (string * riskConfig) :=
  [("auto-renewal",
    mkConfig ["automatically renew"; "auto.?renewal"; "unless.*notice.*terminate";
              "shall continue.*unless.*terminated"; "renew.*additional.*term"]
             "Medium" "auto-renewal");
   ("termination-penalty",
    mkConfig ["early termination.*fee"; "penalty.*cancel"; "liquidated damages";
              "termination.*penalty"; "cancellation.*fee"]
             "High" "penalty");
   ("non-compete",
    mkConfig ["non.?compete"; "restraint.*trade"; "competing.*business";
              "solicit.*customers"; "covenant.*not.*compete"]
             "High" "non-compete");
   ("arbitration",
    mkConfig ["binding arbitration"; "waive.*right.*jury"; "dispute.*arbitration";
              "mandatory arbitration"; "arbitration.*agreement"]
             "Medium" "arbitration");
   ("liability-limitation",
    mkConfig ["limit.*liability"; "exclude.*damages"; "no.*consequential.*damages";
              "liability.*limited.*to"; "maximum.*liability"]
             "Medium" "liability");
   ("hidden-fees",
    mkConfig ["additional.*fees"; "service.*charges"; "processing.*fee";
              "administrative.*cost"; "miscellaneous.*charges"]
             "Medium" "hidden-fees");
   ("refund-restrictions",
    mkConfig ["no.*refund"; "non.?refundable"; "refund.*policy"; "no.*return";
              "final.*sale"]
             "Medium" "refund-restrictions")].

Definition titles : list (string * string) :=
  [("auto-renewal", "Automatic Renewal Clause");
   ("termination-penalty", "Early Termination Penalty");
   ("non-compete", "Non-Compete Restriction");
   ("arbitration", "Mandatory Arbitration");
   ("liability-limitation", "Liability Limitation");
   ("hidden-fees", "Additional Fees");
   ("refund-restrictions", "Refund Restrictions")].

Definition formatRiskTitle (riskType : string) : JS.text :=
  JS.or_text (JS.index titles riskType) "Risky Clause".

(** The sentence a match is attributed to: the first piece of the text that
    contains the match, both in lower case. *)
Definition matchingSentence (text m : string) : option string :=
  find (fun sentence => Text.includes (Text.toLowerCase sentence) (Text.toLowerCase m))
       (Text.splitSentences text).

(** The quote of a clause built from a sentence. *)
Definition quoteOf (sentence : string) : string :=
  JS.prefix 300 (Text.trim sentence) ++ "...".

(** What one match pushes on [detectedClauses]. *)
Definition clausesOfMatch (text riskType : string) (config : riskConfig)
    (m : string) : list clause :=
  match matchingSentence text m with
  | Some sentence =>
      if (0 <? String.length (Text.trim sentence))%nat then
        [mkClause (formatRiskTitle riskType)
                  (quoteOf sentence)
                  None
                  (configSeverity config)
                  (configCategory config)
                  (JS.ofRounded
                     (calculateClauseRiskScore (configSeverity config)
                                               (configCategory config)))]
      else []
  | None => []
  end.

Definition clausesOfPattern (text riskType : string) (config : riskConfig)
    (pattern : string) : list clause :=
  flat_map (clausesOfMatch text riskType config) (Regex.matchAll pattern text).

Definition clausesOfRisk (text : string) (entry : string * riskConfig) : list clause :=
  flat_map (clausesOfPattern text (fst entry) (snd entry)) (patterns (snd entry)).

(** Two clauses collide at width [n]: same category, same first [n] code
    units of the quote. *)
Definition collide (n : nat) (existing c : clause) : bool :=
  String.eqb (category existing) (category c)
  && String.eqb (JS.prefix n (quote existing)) (JS.prefix n (quote c)).

(** The body of the deduplicating [forEach]: push unless some kept clause
    collides. *)
Definition pushUnlessDuplicate (n : nat) (kept : list clause) (c : clause) : list clause :=
  if existsb (fun existing => collide n existing c) kept then kept
  else kept ++ [c].

Definition removeDuplicateClauses (clauses : list clause) : list clause :=
  fold_left (pushUnlessDuplicate 100) clauses [].

Definition detectRiskyClausesRuleBased (text : string) : list clause :=
  removeDuplicateClauses (flat_map (clausesOfRisk text) riskPatterns).

(** ** Merger *)

Definition combineRiskyClauses (ruleBasedClauses aiClauses : list clause) : list clause :=
  firstn 10 (fold_left (pushUnlessDuplicate 50) aiClauses ruleBasedClauses).

(** ** Explanations *)

Definition explanations : list (string * string) :=
  [("auto-renewal", "This clause automatically extends your contract without your explicit consent, potentially locking you into unwanted terms.");
   ("penalty", "This clause imposes financial penalties for early termination, which could be costly if you need to exit the contract.");
   ("non-compete", "This clause restricts your ability to work in your field after the contract ends, potentially limiting your career options.");
   ("arbitration", "This clause requires disputes to be resolved through arbitration instead of court, limiting your legal options.");
   ("liability", "This clause limits the other party's responsibility for damages, potentially leaving you unprotected.");
   ("hidden-fees", "This clause allows for additional charges that may not be clearly disclosed upfront.");
   ("refund-restrictions", "This clause limits your ability to get refunds, potentially putting your money at risk.")].

Definition getDefaultExplanation (cat : string) : JS.text :=
  JS.or_text (JS.index explanations cat)
    "This clause contains terms that could be disadvantageous to you.".

Definition setExplanation (c : clause) (e : JS.text) : clause :=
  mkClause (title c) (quote c) (Some e) (severity c) (category c) (riskScore c).

(** [!clause.explanation]. *)
Definition lacksExplanation (c : clause) : bool :=
  match explanation c with
  | Some (JS.Str e) => String.eqb e ""
  | Some JS.NotString => false
  | None => true
  end.

(** The explanation calls are issued one after the other; [oracle k] is the
    outcome of the call number [k]: the text of the completion, or [None]
    when the call or the reading of its reply throws.  The result carries
    the number of calls issued so far. *)
Fixpoint enhanceFrom (oracle : nat -> option string) (k : nat)
    (clauses : list clause) : list clause * nat :=
  match clauses with
  | [] => ([], k)
  | c :: rest =>
      if lacksExplanation c then
        let e := match oracle k with
                 | Some content => JS.Str (Text.trim content)
                 | None => getDefaultExplanation (category c)
                 end in
        let '(enhanced, k') := enhanceFrom oracle (S k) rest in
        (setExplanation c e :: enhanced, k')
      else
        let '(enhanced, k') := enhanceFrom oracle k rest in
        (c :: enhanced, k')
  end.

Definition enhanceClausesWithExplanations (oracle : nat -> option string)
    (clauses : list clause) : list clause :=
  fst (enhanceFrom oracle 0 clauses).

(** ** Orchestration *)

Record AnalysisResult : Type := mkResult {
  summary : string;
  keyHighlights : list string;
  contractType : string;
  riskyClauses : list clause;
  overallRiskScore : option Z;
  recommendation : string;
  negotiationTips : list string;
  analysisVersion : string;
  aiModel : string;
  confidence : Q
}.

(** The object read out of the model's reply: every field may be missing. *)
Record aiAnalysis : Type := mkReply {
  aiSummary : option string;
  aiKeyHighlights : option (list string);
  aiContractType : option string;
  aiRiskyClauses : option (list clause);
  aiNegotiationTips : option (list string);
  aiConfidence : option Q
}.

(** An analysis result used where the reply of the model is expected. *)
Definition asReply (r : AnalysisResult) : aiAnalysis :=
  mkReply (Some (summary r)) (Some (keyHighlights r)) (Some (contractType r))
          (Some (riskyClauses r)) (Some (negotiationTips r)) (Some (confidence r)).

(** [createFallbackAnalysis]: [None] for the score or the recommendation is
    the default [null] of the parameter. *)
Definition createFallbackAnalysis (contractText fileName : string)
    (clauses : list clause) (score : option (option Z))
    (advice : option string) : AnalysisResult :=
  let clauses :=
    if (List.length clauses =? 0)%nat then detectRiskyClausesRuleBased contractText
    else clauses in
  let score :=
    match score with
    | None => calculateOverallRiskScore clauses
    | Some s => s
    end in
  let advice :=
    match advice with
    | None => generateRecommendation score clauses
    | Some a => a
    end in
  mkResult
    ("This appears to be a legal contract (" ++ fileName
       ++ "). Our analysis has identified " ++ Text.ofNat (List.length clauses)
       ++ " areas that require attention. Please review carefully before signing.")
    ["Contract contains standard legal terms";
     Text.ofNat (List.length clauses) ++ " potential risk areas identified";
     "Consider consulting a legal professional for complex terms"]
    "other"
    clauses
    score
    advice
    ["Review all terms carefully before signing";
     "Consider negotiating unfavorable clauses";
     "Seek legal advice if unsure about any terms";
     "Ask for clarification on complex language"]
    "1.0"
    "rule-based-fallback"
    (6 # 10).

(** What the bulk completion call did. *)
Inductive completion : Type :=
| CallFails                    (* the request rejects: quota, transport, auth *)
| BadJson                      (* the reply came, [JSON.parse] throws *)
| Unusable                     (* the reply parses, but using it throws a
                                  [TypeError]: it is [null], its
                                  [riskyClauses] is not an array, or the
                                  merger reads the [quote] of a clause that
                                  has none *)
| Parsed (reply : aiAnalysis). (* the reply decodes to the expected object *)

Inductive thrown : Type :=
| OpenAIFailed
| TypeError.

(** The [try] block of [analyzeContract]. *)
Definition analyzeContractTry (bulk : completion) (oracle : nat -> option string)
    (contractText fileName : string) : thrown + AnalysisResult :=
  let ruleBasedClauses := detectRiskyClausesRuleBased contractText in
  match bulk with
  | CallFails => inl OpenAIFailed
  | Unusable => inl TypeError
  | _ =>
      let reply :=
        match bulk with
        | Parsed reply => reply
        | _ => asReply (createFallbackAnalysis contractText fileName [] None None)
        end in
      let combinedClauses :=
        combineRiskyClauses ruleBasedClauses (JS.or_arr (aiRiskyClauses reply) []) in
      let enhancedClauses := enhanceClausesWithExplanations oracle combinedClauses in
      let score := calculateOverallRiskScore enhancedClauses in
      let advice := generateRecommendation score enhancedClauses in
      inr (mkResult
             (JS.or_str (aiSummary reply) "Contract analysis completed.")
             (JS.or_arr (aiKeyHighlights reply) [])
             (JS.or_str (aiContractType reply) "other")
             enhancedClauses
             score
             advice
             (JS.or_arr (aiNegotiationTips reply) [])
             "1.0"
             "gpt-4"
             (JS.or_num (aiConfidence reply) (8 # 10)))
  end.

(** The [catch] block: rule-based clauses with defaulted explanations. *)
Definition analyzeContractCatch (contractText fileName : string) : AnalysisResult :=
  let ruleBasedClauses := detectRiskyClausesRuleBased contractText in
  let enhancedClauses :=
    map (fun c => setExplanation c
                    (JS.or_field (explanation c) (getDefaultExplanation (category c))))
        ruleBasedClauses in
  let score := calculateOverallRiskScore enhancedClauses in
  let advice := generateRecommendation score enhancedClauses in
  createFallbackAnalysis contractText fileName enhancedClauses (Some score) (Some advice).

Definition analyzeContract (bulk : completion) (oracle : nat -> option string)
    (contractText fileName : string) : AnalysisResult :=
  match analyzeContractTry bulk oracle contractText fileName with
  | inr result => result
  | inl _ => analyzeContractCatch contractText fileName
  end.

(** * Vocabulary of the properties *)

(** The severity of a clause is one of the three the multiplier table owns. *)
Definition validSeverity (c : clause) : Prop :=
  severity c = "Low" \/ severity c = "Medium" \/ severity c = "High".

(** The category of a clause is not the name of a property every object
    literal inherits. *)
Definition plainCategory (c : clause) : Prop :=
  ~ In (category c) JS.prototypeKeys.

(** Doubles that are not negative and not [NaN]; doubles that are finite and
    positive. *)
Definition nonneg (x : JS.number) : Prop :=
  match x with
  | S754_zero false | S754_infinity false | S754_finite false _ _ => True
  | _ => False
  end.

Definition positiveFinite (x : JS.number) : Prop :=
  match x with
  | S754_finite false _ _ => True
  | _ => False
  end.

(** A clause whose contribution to the total is a number of known sign:
    a severity of the table, a plain category, a score that is not negative. *)
Definition scorable (c : clause) : Prop :=
  validSeverity c /\ plainCategory c /\ nonneg (riskScore c).

Definition isPositiveFinite (x : JS.number) : bool :=
  match x with
  | S754_finite false _ _ => true
  | _ => false
  end.

(** The multiplier of the specification: Low 1, Medium 2, High 3. *)
Definition multiplierOf (c : clause) : Z :=
  if String.eqb (severity c) "Low" then 1
  else if String.eqb (severity c) "Medium" then 2
  else if String.eqb (severity c) "High" then 3
  else 0.

(** [r * severityMultiplier[severity] * categoryWeight[category]] in double
    arithmetic, with [r] the [riskScore], or 5 when that is 0 or [NaN]. *)
Definition termOf (c : clause) : JS.number :=
  JS.mul (JS.mul (if JS.falsy (riskScore c) then JS.ofZ 5 else riskScore c)
                 (JS.ofZ (multiplierOf c)))
         (weightOf (category c)).

(** The sum of the terms, added in list order from 0. *)
Definition totalOf (cs : list clause) : JS.number :=
  fold_left (fun total c => JS.add total (termOf c)) cs (JS.ofZ 0).

(** [min(30 + 5 n, 70)]. *)
Definition floorOf (n : nat) : Z := Z.min (30 + 5 * Z.of_nat n) 70.

(** [maxPossibleScore] after [n] clauses: [n] additions of 30. *)
Definition maxPossibleOf (n : nat) : JS.number :=
  Nat.iter n (fun m => JS.add m (JS.ofZ 30)) (JS.ofZ 0).

(** [max(min(100, round(total / maxPossible * 100)), min(30 + 5 n, 70))] in
    double arithmetic, and 20 for the empty list. *)
Definition formulaScore (cs : list clause) : option Z :=
  match cs with
  | [] => Some 20
  | _ =>
      let n := List.length cs in
      JS.Math_max
        (JS.Math_min 100
           (JS.Math_round
              (JS.mul (JS.div (totalOf cs) (maxPossibleOf n)) (JS.ofZ 100))))
        (floorOf n)
  end.

(** Checks, for [k] steps from step [i] on, that adding 30 once more gives
    the double of [30 (i + 1)], finite and positive. *)
Fixpoint thirtiesExact (k i : nat) (acc : JS.number) : bool :=
  match k with
  | O => true
  | S k' =>
      let acc' := JS.add acc (JS.ofZ 30) in
      JS.same acc' (JS.ofZ (30 * Z.of_nat (S i)))
      && isPositiveFinite acc'
      && thirtiesExact k' (S i) acc'
  end.

(** The length up to which the properties of the scorer are stated. *)
Definition manyClauses : nat := Z.to_nat 1000.

(** *** The formula of the specification, in exact arithmetic *)

(** The weights of the overall table, read as decimal fractions. *)
Definition decimalWeight : list (string * Q) :=
  [("termination", 9 # 10);
   ("penalty", 8 # 10);
   ("non-compete", 9 # 10);
   ("auto-renewal", 6 # 10);
   ("arbitration", 7 # 10);
   ("liability", 8 # 10);
   ("hidden-fees", 6 # 10);
   ("refund-restrictions", 7 # 10);
   ("other", 7 # 10)]%Q.

(** The rational a finite double stands for. *)
Definition exactValue (x : JS.number) : Q :=
  match x with
  | S754_finite s m e =>
      let v := inject_Z (if s then Z.neg m else Z.pos m) in
      match e with
      | Z.neg k => v / inject_Z (2 ^ Z.pos k)
      | _ => v * inject_Z (2 ^ e)
      end
  | _ => 0
  end.

(** [riskScore * severityMultiplier[severity] * categoryWeight[category]],
    the [riskScore] field taken as it stands. *)
Definition specContribution (c : clause) : Q :=
  exactValue (riskScore c) * inject_Z (multiplierOf c)
  * JS.or_num (JS.get decimalWeight (category c)) (7 # 10).

Definition sumQ (f : clause -> Q) (cs : list clause) : Q :=
  fold_right (fun c acc => f c + acc)%Q 0%Q cs.

(** The nearest integer, ties towards plus infinity. *)
Definition roundHalfUp (x : Q) : Z := Qfloor (x + (1 # 2)).

(** [max(min(100, round(total / (30 n) * 100)), min(30 + 5 n, 70))]. *)
Definition blend (total : Q) (n : Z) : Z :=
  Z.max (Z.min 100 (roundHalfUp (total / inject_Z (30 * n) * inject_Z 100)))
        (Z.min (30 + 5 * n) 70).

(** The scorer of the specification, section 4.4. *)
Definition specScore (cs : list clause) : Z :=
  match cs with
  | [] => 20
  | _ => blend (sumQ specContribution cs) (Z.of_nat (List.length cs))
  end.

(** Closes [Forall validSeverity l] on an explicit list [l]. *)
Ltac valid_severities :=
  repeat (apply Forall_cons; [unfold validSeverity; simpl; auto |]);
  apply Forall_nil.

(** A clause with the given score, severity and category. *)
Definition sampleClause (r : Z) (sev cat : string) : clause :=
  mkClause "Clause" "quote" None sev cat (JS.ofZ r).

(** The number of clauses whose severity is High. *)
Fixpoint highCount (cs : list clause) : Z :=
  match cs with
  | [] => 0
  | c :: rest =>
      if string_dec (severity c) "High" then 1 + highCount rest
      else highCount rest
  end.

(** Same category and same first [n] code units of the quote. *)
Definition sameKey (n : nat) (a b : clause) : Prop :=
  category a = category b /\ JS.prefix n (quote a) = JS.prefix n (quote b).

(** No two entries of the list have the same key. *)
Fixpoint collisionFree (n : nat) (l : list clause) : Prop :=
  match l with
  | [] => True
  | a :: rest => Forall (fun b => ~ sameKey n a b) rest /\ collisionFree n rest
  end.

(** What the explanation step leaves untouched, and what it guarantees. *)
Definition explained (c d : clause) : Prop :=
  title d = title c /\ quote d = quote c /\ severity d = severity c
  /\ category d = category c /\ riskScore d = riskScore c
  /\ explanation d <> None.


(** [sentence] is the first piece of [text] that contains [m], case
    ignored: no piece before it does. *)
Definition firstSentenceWith (text m sentence : string) : Prop :=
  exists before after : list string,
    Text.splitSentences text = (before ++ sentence :: after)%list
    /\ Forall (fun s => Text.includes (Text.toLowerCase s) (Text.toLowerCase m) = false)
              before
    /\ Text.includes (Text.toLowerCase sentence) (Text.toLowerCase m) = true.

(** The categories of the data model. *)
Definition categories : list string :=
  ["termination"; "penalty"; "auto-renewal"; "non-compete"; "arbitration";
   "liability"; "hidden-fees"; "refund-restrictions"; "data-privacy";
   "intellectual-property"; "other"].

(** A per-clause score of the data model: an integer from 1 to 10. *)
Definition isScore (x : JS.number) : Prop :=
  exists z : Z, x = JS.ofZ z /\ 1 <= z <= 10.

(** The invariant of a risky clause: severity and category in their closed
    sets, [riskScore] an integer within 1..10, a quote of bounded length. *)
Definition clauseInvariant (c : clause) : Prop :=
  validSeverity c
  /\ In (category c) categories
  /\ isScore (riskScore c)
  /\ (String.length (quote c) <= 303)%nat.

(** A clause carries an explanation that is not empty. *)
Definition hasExplanation (c : clause) : Prop :=
  exists e : string, explanation c = Some (JS.Str e) /\ e <> "".

(** An analysis result the data model accepts: at most 10 clauses, no two
    of them with the same category and the same first 100 code units of the
    quote, each satisfying its invariant and carrying an explanation; a
    score within 0..100 computed from the clauses returned; the
    recommendation selected from that score and those clauses; a confidence
    within [0, 1]. *)
Definition wellFormed (r : AnalysisResult) : Prop :=
  (List.length (riskyClauses r) <= 10)%nat
  /\ collisionFree 100 (riskyClauses r)
  /\ (exists z : Z, overallRiskScore r = Some z /\ 0 <= z <= 100)
  /\ overallRiskScore r = calculateOverallRiskScore (riskyClauses r)
  /\ recommendation r = generateRecommendation (overallRiskScore r) (riskyClauses r)
  /\ In (recommendation r) ["Safe to sign"; "Review carefully"; "Avoid signing"]
  /\ Forall (fun c => clauseInvariant c /\ hasExplanation c) (riskyClauses r)
  /\ (0 <= confidence r <= 1)%Q.

Definition newline : string := String "010"%char EmptyString.

(** Twelve sentences, one per line, each caught by one pattern. *)
Definition twelveRisks : string :=
  "The term will automatically renew." ++ newline ++
  "Auto-renewal applies each year." ++ newline ++
  "Liquidated damages are owed." ++ newline ++
  "A cancellation fee applies." ++ newline ++
  "A non-compete applies." ++ newline ++
  "You may not run a competing business." ++ newline ++
  "Binding arbitration is used." ++ newline ++
  "Mandatory arbitration is required." ++ newline ++
  "Our maximum liability is small." ++ newline ++
  "We exclude all damages." ++ newline ++
  "A processing fee is due." ++ newline ++
  "All payments are non-refundable.".

(** * The rest of the service, and its callers *)

(** ** [extractTextFromPDF] and the prompt of [analyzeContract] *)

(** What reading and parsing the file did: [ParsedPdf None] is a parse
    result without a [text]. *)
Inductive pdfOutcome : Type :=
| ReadFails (message : string)
| ParseFails (message : string)
| ParsedPdf (text : option string).

Definition extractionPrefix : string := "Failed to extract text from PDF: ".

Definition noTextMessage : string :=
  "No text content found in PDF. The file might be image-based or corrupted.".

(** [extractTextFromPDF]: the text, or the message of the error thrown. *)
Definition extractTextFromPDF (outcome : pdfOutcome) : string + string :=
  match outcome with
  | ReadFails message => inl (extractionPrefix ++ message)
  | ParseFails message => inl (extractionPrefix ++ message)
  | ParsedPdf text =>
      match text with
      | Some t =>
          if String.eqb t "" || (String.length (Text.trim t) =? 0)%nat
          then inl (extractionPrefix ++ noTextMessage)
          else inr t
      | None => inl (extractionPrefix ++ noTextMessage)
      end
  end.

(** The part of the prompt that carries the contract text. *)
Definition promptLimit : nat := Z.to_nat 8000.

Definition promptExcerpt (contractText : string) : string :=
  JS.prefix promptLimit contractText ++ " "
  ++ (if (promptLimit <? String.length contractText)%nat then "...[truncated]" else "").

(** ** The contract model ([models/Contract.js]) *)

Module Contract.

(** The validators of [riskyClauseSchema]: a required string is not empty
    (the title after its [trim] setter), lengths and ranges as declared. *)
Definition severities : list string := ["Low"; "Medium"; "High"].

Definition validRiskyClause (c : clause) : bool :=
  match title c with
  | JS.Str t => negb (String.eqb (Text.trim t) "")
  | JS.NotString => false
  end
  && negb (String.eqb (quote c) "")
  && (String.length (quote c) <=? 1000)%nat
  && match explanation c with
     | Some (JS.Str e) => negb (String.eqb e "") && (String.length e <=? 500)%nat
     | _ => false
     end
  && existsb (String.eqb (severity c)) severities
  && existsb (String.eqb (category c)) categories
  && JS.le (JS.ofZ 1) (riskScore c) && JS.le (riskScore c) (JS.ofZ 10).

(** The virtual [riskLevel]; [None] is a document without analysis or
    without score, [Some None] a score that is [NaN]. *)
Definition riskLevel (score : option (option Z)) : string :=
  match score with
  | None => "Unknown"
  | Some s =>
      if JS.ge s 70 then "High"
      else if JS.ge s 40 then "Medium"
      else "Low"
  end.

(** The fields [updateProcessingStatus] touches; times in milliseconds. *)
Record processing : Type := mkProcessing {
  processingStatus : string;
  processingStartTime : option Z;
  processingEndTime : option Z;
  processingTime : option Z;
  errorMessage : option string
}.

(** A new document: status [pending], nothing else set. *)
Definition pending : processing := mkProcessing "pending" None None None None.

(** [updateProcessingStatus(status, errorMessage)], [now] being the reading
    of the clock ([new Date()]) during the call; [message] is [None] for
    [null]. *)
Definition updateProcessingStatus (doc : processing) (status : string)
    (message : option string) (now : Z) : processing :=
  let start :=
    if String.eqb status "processing" then
      match processingStartTime doc with
      | None => Some now
      | Some t => Some t
      end
    else processingStartTime doc in
  let finished := String.eqb status "completed" || String.eqb status "failed" in
  let stop := if finished then Some now else processingEndTime doc in
  let elapsed :=
    if finished then
      match start with
      | Some t => Some (now - t)
      | None => processingTime doc
      end
    else processingTime doc in
  let message' :=
    match message with
    | Some m => if String.eqb m "" then errorMessage doc else Some m
    | None => errorMessage doc
    end in
  mkProcessing status start stop elapsed message'.

(** A sequence of status updates, each with its message and the reading of
    the clock during the call. *)
Definition runUpdates (doc : processing) (calls : list (string * option string * Z))
    : processing :=
  fold_left (fun d call => updateProcessingStatus d (fst (fst call)) (snd (fst call))
                                                  (snd call))
            calls doc.

(** The clock never goes back: the readings do not decrease, from [lo] on. *)
Fixpoint clockFrom (lo : Z) (calls : list (string * option string * Z)) : Prop :=
  match calls with
  | [] => True
  | call :: rest => lo <= snd call /\ clockFrom (snd call) rest
  end.

(** The statistics of [getUserStats], read on the scores of the user's
    contracts. *)
Record userStats : Type := mkStats {
  totalContracts : Z;
  avgRiskScore : Q;
  highRiskContracts : Z;
  mediumRiskContracts : Z;
  lowRiskContracts : Z
}.

Definition noStats : userStats := mkStats 0 0 0 0 0.

(** [$cond: [test, 1, 0]]. *)
Definition cond (test : bool) : Z := if test then 1 else 0.

(** One document entering the [$group] stage; the pair carries the
    counters and the sum the average is taken from. *)
Definition groupStep (acc : userStats * Z) (score : Z) : userStats * Z :=
  let '(s, sum) := acc in
  (mkStats (totalContracts s + 1)
           (avgRiskScore s)
           (highRiskContracts s + cond (70 <=? score))
           (mediumRiskContracts s + cond ((40 <=? score) && (score <? 70)))
           (lowRiskContracts s + cond (score <? 40)),
   sum + score).

(** [getUserStats]: [None] when the aggregation throws; no document gives
    no group, hence the zero record. *)
Definition getUserStats (scores : option (list Z)) : userStats :=
  match scores with
  | None => noStats
  | Some [] => noStats
  | Some l =>
      let '(s, sum) := fold_left groupStep l (noStats, 0) in
      mkStats (totalContracts s)
              (inject_Z sum / inject_Z (totalContracts s))
              (highRiskContracts s) (mediumRiskContracts s) (lowRiskContracts s)
  end.

(** The number of scores the virtual [riskLevel] labels [level]. *)
Definition labelled (level : string) (scores : list Z) : Z :=
  Z.of_nat (List.length
              (filter (fun z => String.eqb (riskLevel (Some (Some z))) level) scores)).

End Contract.

(** ** The client helpers ([services/api.js]) *)

Module Api.

(** [getRiskLevel(riskScore)]; a missing score compares false everywhere. *)
Definition getRiskLevel (riskScore : option Z) : string :=
  if JS.ge riskScore 70 then "High"
  else if JS.ge riskScore 40 then "Medium"
  else "Low".

Definition getRiskColor (riskScore : option Z) : string :=
  if JS.ge riskScore 70 then "danger"
  else if JS.ge riskScore 40 then "warning"
  else "success".

End Api.

(** ** The contract routes ([routes/contracts.js]) *)

Module Routes.

(** A range filter on the score: [$gte] and [$lt] bounds, when present. *)
Record range : Type := mkRange { gte : option Z; lt : option Z }.

Definition riskRanges : list (string * range) :=
  [("Low", mkRange None (Some 40));
   ("Medium", mkRange (Some 40) (Some 70));
   ("High", mkRange (Some 70) None)].

(** Whether a document with that score passes the filter. *)
Definition matches (r : range) (score : Z) : bool :=
  match gte r with Some b => b <=? score | None => true end
  && match lt r with Some b => score <? b | None => true end.

(** The filter [GET /api/contracts] puts on the score for [?riskLevel=],
    [None] when the query has no such parameter. *)
Definition riskFilter (level : option string) : option range :=
  match level with
  | Some l => if String.eqb l "" then None else JS.get riskRanges l
  | None => None
  end.

(** [Math.ceil(a / b)]. *)
Definition ceilDiv (a b : Z) : Z := Qceiling (inject_Z a / inject_Z b).

Record pagination : Type := mkPagination {
  currentPage : Z;
  totalPages : Z;
  totalCount : Z;
  hasNextPage : bool;
  hasPrevPage : bool;
  limit : Z
}.

(** The paging of [GET /api/contracts]: [page] and [limit] are the parsed
    query parameters ([None] when absent, [parseInt] giving [NaN]); the
    result is [skip] and the pagination record sent back. *)
Definition paginate (page limit : option Z) (count : Z) : Z * pagination :=
  let page := JS.or_int page 1 in
  let limit := JS.or_int limit 10 in
  let skip := (page - 1) * limit in
  let totalPages := ceilDiv count limit in
  (skip, mkPagination page totalPages count (page <? totalPages) (1 <? page) limit).

(** [contract.pageCount] as [processContractAsync] sets it. *)
Definition pageCount (extractedText : string) : Z :=
  ceilDiv (Z.of_nat (String.length extractedText)) 3000.

End Routes.

(** ** Vocabulary of the further properties *)

(** Every code unit. *)
Definition allAscii : list ascii := map ascii_of_nat (seq 0 256).

(** An ASCII letter. *)
Definition isLetter (c : ascii) : bool :=
  let n := nat_of_ascii c in
  Text.inRange 65 90 n || Text.inRange 97 122 n.

Fixpoint noLetters (s : string) : bool :=
  match s with
  | EmptyString => true
  | String c rest => negb (isLetter c) && noLetters rest
  end.

(** The pattern begins with a literal letter. *)
Definition startsWithLetter (pattern : string) : bool :=
  match Regex.parse pattern with
  | Regex.Chr c :: _ => isLetter c
  | _ => false
  end.

(** The explanation the [catch] block of [analyzeContract] gives a clause. *)
Definition defaulted (c : clause) : clause :=
  setExplanation c (JS.or_field (explanation c) (getDefaultExplanation (category c))).

(** Title, severity and score the detector gives the clauses of a category. *)
Definition detectorTable : list (string * (JS.text * string * JS.number)) :=
  [("auto-renewal", (JS.Str "Automatic Renewal Clause", "Medium", JS.ofZ 4));
   ("penalty", (JS.Str "Early Termination Penalty", "High", JS.ofZ 8));
   ("non-compete", (JS.Str "Non-Compete Restriction", "High", JS.ofZ 9));
   ("arbitration", (JS.Str "Mandatory Arbitration", "Medium", JS.ofZ 5));
   ("liability", (JS.Str "Liability Limitation", "Medium", JS.ofZ 5));
   ("hidden-fees", (JS.Str "Additional Fees", "Medium", JS.ofZ 4));
   ("refund-restrictions", (JS.Str "Refund Restrictions", "Medium", JS.ofZ 4))].

(** * Lemmas on double arithmetic *)

(** ** Signs

    The operations of [SpecFloat] on doubles that are not negative give
    doubles that are not negative; in particular they do not give [NaN]. *)

Lemma shr_1_nonneg (mrs : shr_record) : 0 <= shr_m mrs -> 0 <= shr_m (shr_1 mrs).
Proof.
  destruct mrs as [m r s]. cbn [shr_m]. intros Hm.
  destruct m as [| [p | p |] | p]; simpl; lia.
Qed.

Lemma iter_pos_nonneg (p : positive) :
  forall mrs, 0 <= shr_m mrs -> 0 <= shr_m (iter_pos shr_1 p mrs).
Proof.
  induction p as [p IH | p IH |]; intros mrs Hm; cbn [iter_pos].
  - apply IH, IH, shr_1_nonneg, Hm.
  - apply IH, IH, Hm.
  - apply shr_1_nonneg, Hm.
Qed.

Lemma shr_fexp_nonneg (m e : Z) (l : location) :
  0 <= m -> 0 <= shr_m (fst (shr_fexp 53 1024 m e l)).
Proof.
  intros Hm. unfold shr_fexp, shr.
  assert (H0 : 0 <= shr_m (shr_record_of_loc m l))
    by (destruct l as [| []]; exact Hm).
  destruct (fexp 53 1024 (Zdigits2 m + e) - e) as [| p | p]; cbn [fst];
    try exact H0.
  apply iter_pos_nonneg, H0.
Qed.

Lemma round_nearest_even_nonneg (m : Z) (l : location) :
  0 <= m -> 0 <= round_nearest_even m l.
Proof.
  intros Hm. unfold round_nearest_even.
  destruct l as [| []]; try destruct (Z.even m); lia.
Qed.

Lemma binary_round_aux_sign (s : bool) (m e : Z) (l : location) :
  0 <= m ->
  match binary_round_aux 53 1024 s m e l with
  | S754_zero s' | S754_infinity s' | S754_finite s' _ _ => s' = s
  | S754_nan => False
  end.
Proof.
  intros Hm. unfold binary_round_aux.
  pose proof (shr_fexp_nonneg m e l Hm) as H1.
  destruct (shr_fexp 53 1024 m e l) as [mrs' e']. cbn [fst] in H1.
  pose proof (shr_fexp_nonneg _ e' loc_Exact
                (round_nearest_even_nonneg _ (loc_of_shr_record mrs') H1)) as H2.
  destruct (shr_fexp 53 1024
              (round_nearest_even (shr_m mrs') (loc_of_shr_record mrs')) e' loc_Exact)
    as [mrs'' e'']. cbn [fst] in H2.
  destruct (shr_m mrs'') as [| p | p]; [reflexivity | | lia].
  destruct (e'' <=? 1024 - 53); reflexivity.
Qed.

Lemma binary_round_aux_nonneg (m e : Z) (l : location) :
  0 <= m -> nonneg (binary_round_aux 53 1024 false m e l).
Proof.
  intros Hm. pose proof (binary_round_aux_sign false m e l Hm) as H.
  destruct (binary_round_aux 53 1024 false m e l) as [s | s | | s p x];
    try contradiction; subst; exact I.
Qed.

Lemma mul_nonneg (x y : JS.number) :
  nonneg x -> positiveFinite y -> nonneg (JS.mul x y).
Proof.
  unfold JS.mul.
  destruct x as [[] | [] | | [] mx ex]; destruct y as [[] | [] | | [] my ey];
    cbn; try contradiction; intros _ _; try exact I.
  apply binary_round_aux_nonneg. lia.
Qed.

Lemma add_nonneg (x y : JS.number) : nonneg x -> nonneg y -> nonneg (JS.add x y).
Proof.
  destruct x as [[] | [] | | [] mx ex]; destruct y as [[] | [] | | [] my ey];
    cbn [nonneg]; try contradiction; intros _ _; try exact I.
  unfold JS.add, SFadd, cond_Zopp.
  change (Z.pos (fst (shl_align mx ex (Z.min ex ey)))
          + Z.pos (fst (shl_align my ey (Z.min ex ey))))
    with (Z.pos (fst (shl_align mx ex (Z.min ex ey))
                 + fst (shl_align my ey (Z.min ex ey)))).
  unfold binary_normalize, binary_round.
  destruct (shl_align _ _ _) as [mz ez].
  apply binary_round_aux_nonneg. lia.
Qed.

Lemma div_nonneg (x y : JS.number) :
  nonneg x -> positiveFinite y -> nonneg (JS.div x y).
Proof.
  destruct x as [[] | [] | | [] mx ex]; destruct y as [[] | [] | | [] my ey];
    cbn [nonneg positiveFinite]; try contradiction; intros _ _; try exact I.
  unfold JS.div, SFdiv, SFdiv_core_binary. cbv zeta.
  set (m' := match _ - _ - _ with Z0 => _ | Zpos _ => _ | Zneg _ => _ end).
  assert (Hm' : 0 <= m').
  { unfold m'. destruct (_ - _ - _); try lia. apply Z.shiftl_nonneg. lia. }
  pose proof (Z.div_pos m' (Z.pos my) Hm' ltac:(lia)) as Hq.
  unfold Z.div in Hq.
  destruct (Z.div_eucl m' (Z.pos my)) as [q r]. cbn [xorb].
  apply binary_round_aux_nonneg. exact Hq.
Qed.

Lemma ofZ_nonneg (z : Z) : 0 <= z -> nonneg (JS.ofZ z).
Proof.
  intros Hz. unfold JS.ofZ, binary_normalize, binary_round.
  destruct z as [| p | p]; [exact I | | lia].
  destruct (shl_align _ _ _) as [mz ez].
  apply binary_round_aux_nonneg. lia.
Qed.

Lemma positiveFinite_nonneg (x : JS.number) : positiveFinite x -> nonneg x.
Proof.
  destruct x as [[] | [] | | [] m e]; cbn; tauto.
Qed.

Lemma isPositiveFinite_spec (x : JS.number) :
  isPositiveFinite x = true -> positiveFinite x.
Proof.
  destruct x as [[] | [] | | [] m e]; cbn; intros H; try discriminate H; exact I.
Qed.

Lemma same_eq (x y : JS.number) : JS.same x y = true -> x = y.
Proof.
  destruct x as [a | a | | a m e]; destruct y as [b | b | | b n f];
    cbn [JS.same]; intros H; try discriminate H; try reflexivity.
  - apply Bool.eqb_prop in H. now subst.
  - apply Bool.eqb_prop in H. now subst.
  - apply andb_prop in H as [H He]. apply andb_prop in H as [Hs Hm].
    apply Bool.eqb_prop in Hs. apply Pos.eqb_eq in Hm. apply Z.eqb_eq in He.
    now subst.
Qed.

(** ** [NaN] *)

Lemma add_nan_l (x : JS.number) : JS.add JS.nan x = JS.nan.
Proof. reflexivity. Qed.

Lemma add_nan_r (x : JS.number) : JS.add x JS.nan = JS.nan.
Proof. destruct x; reflexivity. Qed.

Lemma mul_nan_l (x : JS.number) : JS.mul JS.nan x = JS.nan.
Proof. reflexivity. Qed.

Lemma mul_nan_r (x : JS.number) : JS.mul x JS.nan = JS.nan.
Proof. destruct x; reflexivity. Qed.

(** ** [Math.round], [Math.min], [Math.max] *)

Lemma Math_round_nonneg (x : JS.number) :
  nonneg x ->
  JS.Math_round x = JS.RInf false
  \/ exists z : Z, JS.Math_round x = JS.RInt z /\ 0 <= z.
Proof.
  destruct x as [[] | [] | | [] m e]; cbn [nonneg]; try contradiction; intros _.
  - right. exists 0. split; [reflexivity | lia].
  - left. reflexivity.
  - right. cbn [JS.Math_round]. destruct e as [| p | p]; eexists; split;
      try reflexivity.
    + lia.
    + apply Z.mul_nonneg_nonneg; [lia |]. apply Z.pow_nonneg. lia.
    + apply Z.div_pos.
      * assert (0 <= 2 ^ Z.pos p) by (apply Z.pow_nonneg; lia). lia.
      * apply Z.pow_pos_nonneg; lia.
Qed.

(** Whatever was rounded, the capped and floored result is [NaN] or lies
    between the floor and 100. *)
Lemma max_min_cases (x : JS.rounded) (k : Z) :
  k <= 100 ->
  JS.Math_max (JS.Math_min 100 x) k = None
  \/ exists z : Z, JS.Math_max (JS.Math_min 100 x) k = Some z /\ k <= z <= 100.
Proof.
  intros Hk. destruct x as [| [] | z]; cbn [JS.Math_min JS.Math_max].
  - left. reflexivity.
  - right. exists k. split; [reflexivity | lia].
  - right. eexists. split; [reflexivity | lia].
  - right. eexists. split; [reflexivity | lia].
Qed.

Lemma max_min_number (x : JS.number) (k : Z) :
  nonneg x -> k <= 100 ->
  exists z : Z,
    JS.Math_max (JS.Math_min 100 (JS.Math_round x)) k = Some z /\ k <= z <= 100.
Proof.
  intros Hx Hk.
  destruct (Math_round_nonneg x Hx) as [H | [z [H _]]]; rewrite H;
    cbn [JS.Math_min JS.Math_max]; eexists; (split; [reflexivity | lia]).
Qed.

(** ** Comparisons *)



(** * Lemmas on the lookups *)

Lemma get_absent {A : Type} (table : list (string * A)) (key : string) :
  ~ In key (map fst table) -> JS.get table key = None.
Proof.
  induction table as [| [k v] rest IH]; intros Hnot.
  - reflexivity.
  - simpl in *. destruct (String.eqb_spec k key) as [Heq | Hneq].
    + exfalso. apply Hnot. now left.
    + apply IH. intros Hin. apply Hnot. now right.
Qed.

Lemma inherited_spec (key : string) :
  existsb (String.eqb key) JS.prototypeKeys = true <-> In key JS.prototypeKeys.
Proof.
  rewrite existsb_exists. split.
  - intros [k [Hin Heq]]. apply String.eqb_eq in Heq. now subst.
  - intros Hin. exists key. split; [exact Hin | apply String.eqb_refl].
Qed.

Lemma not_inherited_spec (key : string) :
  existsb (String.eqb key) JS.prototypeKeys = false <-> ~ In key JS.prototypeKeys.
Proof.
  rewrite <- inherited_spec. destruct (existsb _ _); split; intros H;
    try reflexivity; try discriminate; congruence.
Qed.

(** A key no table owns and no object inherits reads as [undefined]; one
    that is inherited and not owned reads as the inherited property. *)
Lemma index_undefined {A : Type} (table : list (string * A)) (key : string) :
  JS.get table key = None -> ~ In key JS.prototypeKeys ->
  JS.index table key = JS.Undefined.
Proof.
  intros Hget Hkey. unfold JS.index. rewrite Hget.
  apply not_inherited_spec in Hkey. now rewrite Hkey.
Qed.

Lemma index_inherited {A : Type} (table : list (string * A)) (key : string) :
  JS.get table key = None -> In key JS.prototypeKeys ->
  JS.index table key = JS.Inherited.
Proof.
  intros Hget Hkey. unfold JS.index. rewrite Hget.
  apply inherited_spec in Hkey. now rewrite Hkey.
Qed.

(** No table of the scorers owns an inherited name. *)
Lemma inherited_not_owned (key : string) :
  In key JS.prototypeKeys ->
  JS.get severityScores key = None
  /\ JS.get categoryWeights key = None
  /\ JS.get severityMultiplier key = None
  /\ JS.get categoryWeight key = None.
Proof.
  intros Hin. cbn [JS.prototypeKeys In] in Hin.
  repeat (destruct Hin as [<- | Hin]; [repeat split |]); contradiction.
Qed.

(** The multiplier of a clause. *)
Lemma multiplier_valid (c : clause) :
  validSeverity c ->
  JS.to_number (JS.index severityMultiplier (severity c)) = JS.ofZ (multiplierOf c)
  /\ positiveFinite (JS.ofZ (multiplierOf c)).
Proof.
  unfold validSeverity, multiplierOf.
  intros [H | [H | H]]; rewrite H; split; try reflexivity; exact I.
Qed.

Lemma multiplier_invalid (c : clause) :
  ~ validSeverity c ->
  JS.to_number (JS.index severityMultiplier (severity c)) = JS.nan.
Proof.
  unfold validSeverity. intros Hnot.
  assert (Hget : JS.get severityMultiplier (severity c) = None).
  { apply get_absent. cbn [map fst severityMultiplier In]. intuition congruence. }
  unfold JS.index. rewrite Hget.
  destruct (existsb _ _); reflexivity.
Qed.

(** The weight of a category in the overall scorer. *)
Lemma weightOf_inherited (cat : string) :
  In cat JS.prototypeKeys -> weightOf cat = JS.nan.
Proof.
  intros Hin. unfold weightOf.
  rewrite (index_inherited _ _ (proj2 (proj2 (proj2 (inherited_not_owned cat Hin)))) Hin).
  reflexivity.
Qed.

Lemma weightOf_unlisted (cat : string) :
  ~ In cat (map fst categoryWeight) -> ~ In cat JS.prototypeKeys ->
  weightOf cat = JS.lit 7 10.
Proof.
  intros Hnot Hkey. unfold weightOf.
  rewrite (index_undefined _ _ (get_absent _ _ Hnot) Hkey). reflexivity.
Qed.

Lemma weightOf_positive (cat : string) :
  ~ In cat JS.prototypeKeys -> positiveFinite (weightOf cat).
Proof.
  intros Hkey. apply not_inherited_spec in Hkey.
  unfold weightOf, JS.index, categoryWeight. cbn [JS.get].
  repeat (match goal with
          | |- context [String.eqb ?k cat] => destruct (String.eqb k cat)
          end; [vm_compute; exact I |]).
  rewrite Hkey. vm_compute. exact I.
Qed.

(** * Lemmas on the scorer *)

(** On a severity of the table the contribution of a clause is the term of
    the formula. *)
Lemma clauseScore_valid (c : clause) :
  validSeverity c -> clauseScore c = termOf c.
Proof.
  intros Hv. unfold clauseScore, termOf, JS.or_else.
  rewrite (proj1 (multiplier_valid c Hv)). reflexivity.
Qed.

(** A severity outside the multiplier table, or a category that names an
    inherited property, turns the contribution into [NaN]. *)
Lemma clauseScore_invalid (c : clause) :
  ~ validSeverity c -> clauseScore c = JS.nan.
Proof.
  intros Hv. unfold clauseScore. rewrite (multiplier_invalid c Hv).
  rewrite mul_nan_r. apply mul_nan_l.
Qed.

Lemma clauseScore_inherited (c : clause) :
  In (category c) JS.prototypeKeys -> clauseScore c = JS.nan.
Proof.
  intros Hin. unfold clauseScore. rewrite (weightOf_inherited _ Hin).
  apply mul_nan_r.
Qed.

Lemma clauseScore_nonneg (c : clause) : scorable c -> nonneg (clauseScore c).
Proof.
  intros [Hv [Hcat Hr]]. unfold clauseScore.
  rewrite (proj1 (multiplier_valid c Hv)).
  apply mul_nonneg; [| apply weightOf_positive; exact Hcat].
  apply mul_nonneg; [| apply (multiplier_valid c Hv)].
  unfold JS.or_else. destruct (JS.falsy (riskScore c)); [exact I | exact Hr].
Qed.

Example unknown_severity_gives_NaN :
  calculateOverallRiskScore
    [sampleClause 7 "High" "penalty"; sampleClause 5 "Critical" "other"] = None.
Proof.
  vm_compute. reflexivity.
Qed.

Example inherited_category_gives_NaN :
  calculateOverallRiskScore [sampleClause 7 "Medium" "constructor"] = None.
Proof.
  vm_compute. reflexivity.
Qed.

(** The two components of the [forEach] are independent. *)
Lemma fold_scoreStep (cs : list clause) :
  forall a m : JS.number,
    fold_left scoreStep cs (a, m)
    = (fold_left (fun total c => JS.add total (clauseScore c)) cs a,
       Nat.iter (List.length cs) (fun m => JS.add m (JS.ofZ 30)) m).
Proof.
  induction cs as [| c cs IH]; intros a m; [reflexivity |].
  cbn [fold_left List.length]. unfold scoreStep at 2. cbn [fst snd].
  rewrite IH, Nat.iter_succ_r. reflexivity.
Qed.

Lemma fold_total_valid (cs : list clause) :
  Forall validSeverity cs ->
  forall a : JS.number,
    fold_left (fun total c => JS.add total (clauseScore c)) cs a
    = fold_left (fun total c => JS.add total (termOf c)) cs a.
Proof.
  induction 1 as [| c cs Hc _ IH]; intros a; [reflexivity |].
  cbn [fold_left]. rewrite (clauseScore_valid c Hc). apply IH.
Qed.

Lemma fold_total_nonneg (cs : list clause) :
  Forall scorable cs ->
  forall a : JS.number,
    nonneg a ->
    nonneg (fold_left (fun total c => JS.add total (clauseScore c)) cs a).
Proof.
  induction 1 as [| c cs Hc _ IH]; intros a Ha; [exact Ha |].
  cbn [fold_left]. apply IH. apply add_nonneg; [exact Ha |].
  apply clauseScore_nonneg. exact Hc.
Qed.

Lemma fold_total_nan (cs : list clause) :
  fold_left (fun total c => JS.add total (clauseScore c)) cs JS.nan = JS.nan.
Proof.
  induction cs as [| c cs IH]; [reflexivity |].
  cbn [fold_left]. rewrite add_nan_l. exact IH.
Qed.

(** One contribution that is [NaN] makes the total [NaN]. *)
Lemma fold_total_poisoned (cs : list clause) :
  Exists (fun c => clauseScore c = JS.nan) cs ->
  forall a : JS.number,
    fold_left (fun total c => JS.add total (clauseScore c)) cs a = JS.nan.
Proof.
  induction 1 as [c cs Hc | c cs _ IH]; intros a; cbn [fold_left].
  - rewrite Hc, add_nan_r. apply fold_total_nan.
  - apply IH.
Qed.

(** [maxPossibleScore] is exactly [30 n], up to a thousand clauses. *)
Lemma thirtiesExact_sound (k : nat) :
  forall i : nat,
    thirtiesExact k i (maxPossibleOf i) = true ->
    forall j : nat, (i < j <= i + k)%nat ->
      maxPossibleOf j = JS.ofZ (30 * Z.of_nat j)
      /\ positiveFinite (maxPossibleOf j).
Proof.
  induction k as [| k IH]; intros i Hcheck j Hj; [lia |].
  cbn [thirtiesExact] in Hcheck. cbv zeta in Hcheck.
  apply andb_prop in Hcheck as [Hcheck Hrest].
  apply andb_prop in Hcheck as [Hsame Hpos].
  change (JS.add (maxPossibleOf i) (JS.ofZ 30)) with (maxPossibleOf (S i)) in *.
  destruct (Nat.eq_dec j (S i)) as [-> | Hne].
  - split; [apply same_eq; exact Hsame | apply isPositiveFinite_spec; exact Hpos].
  - apply (IH (S i) Hrest). lia.
Qed.

Lemma thirties_checked : thirtiesExact manyClauses 0 (maxPossibleOf 0) = true.
Proof.
  vm_compute. reflexivity.
Qed.

Lemma maxPossible_exact (n : nat) :
  (1 <= n <= manyClauses)%nat ->
  maxPossibleOf n = JS.ofZ (30 * Z.of_nat n) /\ positiveFinite (maxPossibleOf n).
Proof.
  intros Hn. apply (thirtiesExact_sound manyClauses 0 thirties_checked). lia.
Qed.

(** The scorer on a non-empty list, its loop unfolded. *)
Lemma score_unfold (cs : list clause) :
  cs <> [] ->
  calculateOverallRiskScore cs
  = JS.Math_max
      (JS.Math_min 100
         (JS.Math_round
            (JS.mul
               (JS.div (fold_left (fun total c => JS.add total (clauseScore c)) cs (JS.ofZ 0))
                       (maxPossibleOf (List.length cs)))
               (JS.ofZ 100))))
      (floorOf (List.length cs)).
Proof.
  intros Hne. unfold calculateOverallRiskScore.
  destruct cs as [| c cs']; [congruence |].
  change (List.length (c :: cs') =? 0)%nat with false. cbv iota.
  rewrite fold_scoreStep. unfold floorOf, maxPossibleOf.
  replace (30 + Z.of_nat (List.length (c :: cs')) * 5)
    with (30 + 5 * Z.of_nat (List.length (c :: cs'))) by lia.
  reflexivity.
Qed.

Lemma floorOf_bounds (n : nat) : (1 <= n)%nat -> 35 <= floorOf n <= 70.
Proof.
  unfold floorOf. lia.
Qed.

(** Whatever the clauses, the score of a non-empty list is [NaN] or lies
    between the floor and 100. *)
Lemma score_cases (cs : list clause) :
  cs <> [] ->
  calculateOverallRiskScore cs = None
  \/ exists z : Z,
       calculateOverallRiskScore cs = Some z
       /\ floorOf (List.length cs) <= z <= 100.
Proof.
  intros Hne. rewrite (score_unfold cs Hne). apply max_min_cases.
  unfold floorOf. lia.
Qed.

(** On scorable clauses, at most a thousand of them, it is a number. *)
Lemma score_number (cs : list clause) :
  cs <> [] -> Forall scorable cs -> (List.length cs <= manyClauses)%nat ->
  exists z : Z,
    calculateOverallRiskScore cs = Some z
    /\ floorOf (List.length cs) <= z <= 100.
Proof.
  intros Hne Hcs Hlen. rewrite (score_unfold cs Hne).
  assert (Hn : (1 <= List.length cs <= manyClauses)%nat).
  { destruct cs; [congruence | cbn [List.length] in *; lia]. }
  apply max_min_number; [| unfold floorOf; lia].
  apply mul_nonneg; [| vm_compute; exact I].
  apply div_nonneg; [| apply (maxPossible_exact _ Hn)].
  apply fold_total_nonneg; [exact Hcs | exact I].
Qed.

(** A clause that is not scorable for its severity or its category makes
    the score [NaN]. *)
Lemma score_poisoned (cs : list clause) :
  Exists (fun c => ~ validSeverity c \/ In (category c) JS.prototypeKeys) cs ->
  calculateOverallRiskScore cs = None.
Proof.
  intros Hex.
  assert (Hne : cs <> []) by (destruct Hex; discriminate).
  rewrite (score_unfold cs Hne).
  rewrite fold_total_poisoned; [reflexivity |].
  apply Exists_exists in Hex as [c [Hin Hc]]. apply Exists_exists. exists c.
  split; [exact Hin |].
  destruct Hc as [Hc | Hc];
    [apply clauseScore_invalid | apply clauseScore_inherited]; exact Hc.
Qed.

(** ** The weight table of the overall scorer *)

(** C1, as stated, fails: the overall scorer weighs [termination] 0.9, where
    the detector's table (section 4.1) has 1.0; the two tables are distinct. *)
Lemma overall_weight_of_termination_is_not_one :
  weightOf "termination" = JS.lit 9 10
  /\ JS.get categoryWeights "termination" = Some (JS.ofZ 1)
  /\ weightOf "termination" <> JS.ofZ 1.
Proof.
  repeat split. vm_compute. discriminate.
Qed.

(** C1, amended: the overall scorer applies its own table, termination 0.9,
    penalty 0.8, non-compete 0.9, auto-renewal 0.6, arbitration 0.7,
    liability 0.8, hidden-fees 0.6, refund-restrictions 0.7, other 0.7, and
    0.7 to every category that the table does not list and that is not the
    name of a property inherited from [Object.prototype]; for such a name
    the factor applied is [NaN]. *)
Theorem overall_weight_table :
  weightOf "termination" = JS.lit 9 10
  /\ weightOf "penalty" = JS.lit 8 10
  /\ weightOf "non-compete" = JS.lit 9 10
  /\ weightOf "auto-renewal" = JS.lit 6 10
  /\ weightOf "arbitration" = JS.lit 7 10
  /\ weightOf "liability" = JS.lit 8 10
  /\ weightOf "hidden-fees" = JS.lit 6 10
  /\ weightOf "refund-restrictions" = JS.lit 7 10
  /\ weightOf "other" = JS.lit 7 10
  /\ (forall cat : string,
        ~ In cat (map fst categoryWeight) -> ~ In cat JS.prototypeKeys ->
        weightOf cat = JS.lit 7 10)
  /\ (forall cat : string,
        In cat JS.prototypeKeys -> weightOf cat = JS.nan).
Proof.
  repeat split.
  - exact weightOf_unlisted.
  - exact weightOf_inherited.
Qed.

Lemma overall_weight_table_witness :
  ~ In "data-privacy" (map fst categoryWeight)
  /\ ~ In "data-privacy" JS.prototypeKeys
  /\ weightOf "data-privacy" = JS.lit 7 10
  /\ In "constructor" JS.prototypeKeys
  /\ weightOf "constructor" = JS.nan.
Proof.
  assert (H : ~ In "data-privacy" (map fst categoryWeight)).
  { simpl. intros H. repeat (destruct H as [H | H]; [discriminate H |]). exact H. }
  assert (H' : ~ In "data-privacy" JS.prototypeKeys).
  { simpl. intros K. repeat (destruct K as [K | K]; [discriminate K |]). exact K. }
  assert (H'' : In "constructor" JS.prototypeKeys) by (simpl; auto).
  split; [exact H |]. split; [exact H' |].
  split.
  - exact (proj1 (proj2 (proj2 (proj2 (proj2 (proj2 (proj2 (proj2 (proj2 (proj2
             overall_weight_table)))))))))
             "data-privacy" H H').
  - split; [exact H'' |].
    exact (proj2 (proj2 (proj2 (proj2 (proj2 (proj2 (proj2 (proj2 (proj2 (proj2
             overall_weight_table)))))))))
             "constructor" H'').
Defined.

(** ** The score formula *)

(** C4, as stated, fails: a clause whose [riskScore] is 0 (or missing) is
    scored as if it were 5, so the total is not the sum of
    [riskScore * multiplier * weight]. *)
Lemma zero_riskScore_is_scored_as_five :
  let cs := [sampleClause 0 "High" "termination"] in
  Forall validSeverity cs
  /\ calculateOverallRiskScore cs = Some 45
  /\ specScore cs = 35.
Proof.
  vm_compute. repeat split. valid_severities.
Qed.

(** The formula is evaluated in doubles: where the exact quotient is a tie,
    55.5 here, the double falls below it and is rounded down. *)
Example double_quotient_misses_the_tie :
  let cs := [sampleClause 7 "Low" "termination"; sampleClause 10 "High" "termination"] in
  calculateOverallRiskScore cs = Some 55 /\ specScore cs = 56.
Proof.
  vm_compute. split; reflexivity.
Qed.

(** C4, amended: the scorer returns 20 on the empty list and, on [n >= 1]
    clauses with severities among Low, Medium and High,
    [max(min(100, round(total / maxPossible * 100)), min(30 + 5 n, 70))]
    evaluated in double arithmetic, where [total] adds, in list order,
    [r * severityMultiplier[severity] * categoryWeight[category]] with [r]
    the clause's [riskScore], or 5 when that is 0, [NaN] or missing, and
    [maxPossible] is 30 added [n] times, which is exactly [30 n] up to a
    thousand clauses; the result is [NaN] when the rounded quotient is. *)
Theorem calculateOverallRiskScore_formula (cs : list clause) :
  Forall validSeverity cs ->
  calculateOverallRiskScore cs = formulaScore cs
  /\ ((List.length cs <= manyClauses)%nat ->
      maxPossibleOf (List.length cs) = JS.ofZ (30 * Z.of_nat (List.length cs))).
Proof.
  intros Hv. split.
  - destruct cs as [| c cs']; [reflexivity |].
    rewrite (score_unfold (c :: cs')) by discriminate.
    rewrite (fold_total_valid _ Hv). reflexivity.
  - intros Hlen. destruct cs as [| c cs']; [reflexivity |].
    apply maxPossible_exact. cbn [List.length] in *. lia.
Qed.

Lemma calculateOverallRiskScore_formula_witness :
  let cs := [sampleClause 9 "High" "non-compete"; sampleClause 4 "Medium" "auto-renewal"] in
  Forall validSeverity cs
  /\ calculateOverallRiskScore cs = formulaScore cs
  /\ ((List.length cs <= manyClauses)%nat ->
      maxPossibleOf (List.length cs) = JS.ofZ (30 * Z.of_nat (List.length cs))).
Proof.
  assert (H : Forall validSeverity
                [sampleClause 9 "High" "non-compete"; sampleClause 4 "Medium" "auto-renewal"]).
  { valid_severities. }
  split; [exact H |].
  exact (calculateOverallRiskScore_formula _ H).
Defined.

(** ** The range of the score *)

(** C10, as stated, fails: valid severities do not make the score a number.
    A category that names an inherited property, here [constructor], reads
    a function from the weight table and the score is [NaN]; and two scores
    of opposite signs that overflow once multiplied add up to [NaN]. *)
Lemma valid_severities_do_not_make_a_number :
  let cs := [sampleClause 7 "Medium" "constructor"] in
  let ds := [sampleClause (10 ^ 308) "High" "termination";
             sampleClause (- 10 ^ 308) "High" "termination"] in
  cs <> []
  /\ Forall validSeverity cs
  /\ calculateOverallRiskScore cs = None
  /\ ds <> []
  /\ Forall validSeverity ds
  /\ calculateOverallRiskScore ds = None.
Proof.
  cbv zeta.
  split; [discriminate |]. split; [valid_severities |].
  split; [vm_compute; reflexivity |].
  split; [discriminate |]. split; [valid_severities |].
  vm_compute. reflexivity.
Qed.

(** C10, amended: on at most a thousand clauses with valid severities,
    categories that do not name an inherited property and scores that are
    not negative, the score is 20 exactly on the empty list and lies
    between 35 and 100 otherwise; no score falls strictly between 20 and
    35. *)
Theorem score_range (cs : list clause) :
  Forall scorable cs ->
  (List.length cs <= manyClauses)%nat ->
  exists z : Z,
    calculateOverallRiskScore cs = Some z
    /\ (cs <> [] -> 35 <= z <= 100)
    /\ (z = 20 <-> cs = [])
    /\ ~ (20 < z < 35).
Proof.
  intros Hv Hlen. destruct cs as [| c cs'].
  - exists 20. split; [reflexivity |]. split; [congruence |]. split; [tauto | lia].
  - destruct (score_number (c :: cs') ltac:(discriminate) Hv Hlen) as [z [Hz Hb]].
    pose proof (floorOf_bounds (List.length (c :: cs'))
                  ltac:(cbn [List.length]; lia)) as Hf.
    exists z. split; [exact Hz |].
    split; [intros _; lia |]. split; [| lia].
    split; [lia | discriminate].
Qed.

Lemma score_range_witness :
  let cs := [sampleClause 4 "Medium" "auto-renewal"] in
  Forall scorable cs
  /\ (List.length cs <= manyClauses)%nat
  /\ exists z : Z,
       calculateOverallRiskScore cs = Some z
       /\ (cs <> [] -> 35 <= z <= 100)
       /\ (z = 20 <-> cs = [])
       /\ ~ (20 < z < 35).
Proof.
  assert (H : Forall scorable [sampleClause 4 "Medium" "auto-renewal"]).
  { apply Forall_cons; [| apply Forall_nil].
    unfold scorable, validSeverity, plainCategory.
    cbn [sampleClause severity category riskScore].
    split; [auto |]. split; [| vm_compute; exact I].
    simpl. intros K. repeat (destruct K as [K | K]; [discriminate K |]). exact K. }
  assert (H' : (List.length [sampleClause 4 "Medium" "auto-renewal"] <= manyClauses)%nat).
  { unfold manyClauses. simpl List.length. lia. }
  split; [exact H |]. split; [exact H' |].
  exact (score_range _ H H').
Defined.

(** ** The recommendation *)

Lemma filter_isHigh_count (cs : list clause) :
  Z.of_nat (List.length (filter isHigh cs)) = highCount cs.
Proof.
  induction cs as [| c cs IH]; [reflexivity |].
  cbn [filter highCount]. unfold isHigh at 1.
  destruct (String.eqb_spec (severity c) "High") as [Heq | Hneq];
    destruct (string_dec (severity c) "High") as [Heq' | Hneq'];
    try contradiction.
  - cbn [List.length]. lia.
  - exact IH.
Qed.

Lemma highCount_nonneg (cs : list clause) : 0 <= highCount cs.
Proof.
  induction cs as [| c cs IH]; cbn [highCount]; [lia |].
  destruct (string_dec (severity c) "High"); lia.
Qed.

Lemma highCount_Exists (cs : list clause) :
  Exists (fun c => severity c = "High") cs -> 1 <= highCount cs.
Proof.
  induction 1 as [c cs Hc | c cs _ IH]; cbn [highCount].
  - destruct (string_dec (severity c) "High"); [| contradiction].
    pose proof (highCount_nonneg cs). lia.
  - destruct (string_dec (severity c) "High"); lia.
Qed.

(** The recommendation is "Safe to sign" exactly when both comparisons of
    the score fail and no clause is High. *)
Lemma safe_iff (score : option Z) (cs : list clause) :
  generateRecommendation score cs = "Safe to sign"
  <-> JS.ge score 40 = false /\ highCount cs = 0.
Proof.
  pose proof (highCount_nonneg cs) as Hh.
  unfold generateRecommendation. cbv zeta.
  rewrite filter_isHigh_count.
  assert (H70 : JS.ge score 70 = true -> JS.ge score 40 = true).
  { unfold JS.ge. destruct score as [z |]; [| discriminate].
    intros H. apply Z.leb_le in H. apply Z.leb_le. lia. }
  destruct (JS.ge score 70) eqn:E70.
  - rewrite (H70 eq_refl). cbn [orb]. split; [discriminate | intros [K _]; discriminate K].
  - destruct (Z.leb_spec 2 (highCount cs)); cbn [orb].
    + split; [discriminate | lia].
    + destruct (JS.ge score 40); cbn [orb].
      * split; [discriminate | intros [K _]; discriminate K].
      * destruct (Z.leb_spec 1 (highCount cs)).
        -- split; [discriminate | lia].
        -- split; [intros _; split; [reflexivity | lia] | reflexivity].
Qed.

(** C5: "Avoid signing" iff the score is at least 70 or two clauses are
    High; otherwise "Review carefully" iff the score is at least 40 or one
    clause is High; otherwise "Safe to sign". *)
Theorem generateRecommendation_thresholds (overallScore : Z) (cs : list clause) :
  let avoid := 70 <= overallScore \/ 2 <= highCount cs in
  let review := 40 <= overallScore \/ 1 <= highCount cs in
  (generateRecommendation (Some overallScore) cs = "Avoid signing" <-> avoid)
  /\ (generateRecommendation (Some overallScore) cs = "Review carefully"
      <-> ~ avoid /\ review)
  /\ (generateRecommendation (Some overallScore) cs = "Safe to sign"
      <-> ~ avoid /\ ~ review).
Proof.
  unfold generateRecommendation. cbv zeta.
  rewrite filter_isHigh_count. unfold JS.ge.
  destruct (Z.leb_spec 70 overallScore);
    destruct (Z.leb_spec 2 (highCount cs));
    destruct (Z.leb_spec 40 overallScore);
    destruct (Z.leb_spec 1 (highCount cs));
    cbn [orb];
    (split; [| split]); split;
    try discriminate; try reflexivity; try lia;
    try (intros _; lia).
Qed.

(** C7, as stated, fails: the sentence of the specification's auto-renewal
    scenario yields one Medium clause, its score is the floor 35, and the
    recommendation is "Safe to sign". *)
Lemma one_medium_clause_is_safe_to_sign :
  let cs := detectRiskyClausesRuleBased
              "This agreement automatically renews for additional 12-month terms unless terminated with 90 days written notice." in
  cs <> []
  /\ Forall validSeverity cs
  /\ calculateOverallRiskScore cs = Some 35
  /\ generateRecommendation (calculateOverallRiskScore cs) cs = "Safe to sign".
Proof.
  vm_compute. repeat split; try discriminate.
  valid_severities.
Qed.

(** C7, amended: on a non-empty list, a High clause always takes the
    recommendation out of "Safe to sign"; when the score is a number, the
    recommendation is "Safe to sign" exactly for a single clause that is
    not High and scores below 40, so never for two clauses or more; when
    the score is [NaN], exactly when no clause is High. *)
Theorem recommendation_leaves_safe_band (cs : list clause) :
  cs <> [] ->
  let advice := generateRecommendation (calculateOverallRiskScore cs) cs in
  (Exists (fun c => severity c = "High") cs -> advice <> "Safe to sign")
  /\ (forall z : Z,
        calculateOverallRiskScore cs = Some z ->
        (advice = "Safe to sign"
         <-> List.length cs = 1%nat /\ highCount cs = 0 /\ z < 40))
  /\ ((2 <= List.length cs)%nat -> calculateOverallRiskScore cs <> None ->
      advice <> "Safe to sign")
  /\ (calculateOverallRiskScore cs = None ->
      (advice = "Safe to sign" <-> highCount cs = 0)).
Proof.
  intros Hne advice. unfold advice. clear advice.
  assert (Hfloor : forall z, calculateOverallRiskScore cs = Some z ->
                             floorOf (List.length cs) <= z).
  { intros z Hz. destruct (score_cases cs Hne) as [H | [z' [H Hb]]];
      rewrite H in Hz; [discriminate | injection Hz as <-; lia]. }
  assert (Hlen : (1 <= List.length cs)%nat)
    by (destruct cs; [congruence | cbn [List.length]; lia]).
  assert (Hnum : forall z : Z,
             calculateOverallRiskScore cs = Some z ->
             (generateRecommendation (calculateOverallRiskScore cs) cs = "Safe to sign"
              <-> List.length cs = 1%nat /\ highCount cs = 0 /\ z < 40)).
  { intros z Hz. rewrite safe_iff, Hz. unfold JS.ge.
    pose proof (Hfloor z Hz) as Hf. unfold floorOf in Hf.
    destruct (Z.leb_spec 40 z); split.
    - intros [K _]; discriminate K.
    - lia.
    - intros [_ Hh]. repeat split; [lia | exact Hh | lia].
    - intros [_ [Hh _]]. split; [reflexivity | exact Hh]. }
  split; [| split; [exact Hnum | split]].
  - intros Hex Hsafe. apply safe_iff in Hsafe as [_ Hh].
    apply highCount_Exists in Hex. lia.
  - intros H2 Hscore Hsafe.
    destruct (calculateOverallRiskScore cs) as [z |] eqn:Hz; [| congruence].
    apply (Hnum z eq_refl) in Hsafe. lia.
  - intros Hnan. rewrite safe_iff, Hnan. cbn [JS.ge]. tauto.
Qed.

Lemma recommendation_leaves_safe_band_witness :
  let cs := [sampleClause 4 "Medium" "auto-renewal"; sampleClause 4 "Medium" "hidden-fees"] in
  cs <> []
  /\ (2 <= List.length cs)%nat
  /\ calculateOverallRiskScore cs <> None
  /\ generateRecommendation (calculateOverallRiskScore cs) cs <> "Safe to sign".
Proof.
  assert (H : [sampleClause 4 "Medium" "auto-renewal"; sampleClause 4 "Medium" "hidden-fees"]
              <> []) by discriminate.
  assert (H2 : (2 <= List.length
                  [sampleClause 4 "Medium" "auto-renewal"; sampleClause 4 "Medium" "hidden-fees"])%nat)
    by (simpl; lia).
  assert (H3 : calculateOverallRiskScore
                 [sampleClause 4 "Medium" "auto-renewal"; sampleClause 4 "Medium" "hidden-fees"]
               <> None)
    by (vm_compute; discriminate).
  split; [exact H |]. split; [exact H2 |]. split; [exact H3 |].
  exact (proj1 (proj2 (proj2 (recommendation_leaves_safe_band _ H))) H2 H3).
Defined.

(** ** Appending a clause *)





(** * Properties of the deduplicating pushes *)

Section Dedup.

(** The width of the compared quote prefix: 100 in the detector, 50 in the
    merger. *)
Variable n : nat.

Lemma collide_sameKey (a b : clause) : collide n a b = true <-> sameKey n a b.
Proof.
  unfold collide, sameKey.
  rewrite andb_true_iff, !String.eqb_eq. reflexivity.
Qed.

Lemma collide_false (a b : clause) : collide n a b = false <-> ~ sameKey n a b.
Proof.
  rewrite <- collide_sameKey. destruct (collide n a b); split; congruence.
Qed.

Lemma collisionFree_snoc (l : list clause) (c : clause) :
  collisionFree n l -> Forall (fun a => ~ sameKey n a c) l ->
  collisionFree n (l ++ [c]).
Proof.
  induction l as [| a l IH]; intros Hfree Hc.
  - simpl. split; constructor.
  - destruct Hfree as [Ha Hl]. inversion Hc as [| ? ? Hac Hlc]; subst.
    cbn [app collisionFree]. split.
    + apply Forall_app. split; [exact Ha | constructor; [exact Hac | constructor]].
    + apply IH; assumption.
Qed.

Lemma collisionFree_firstn (k : nat) (l : list clause) :
  collisionFree n l -> collisionFree n (firstn k l).
Proof.
  revert l. induction k as [| k IH]; intros [| a l] Hfree; simpl; try exact I.
  destruct Hfree as [Ha Hl]. split.
  - rewrite Forall_forall in *. intros b Hb. apply Ha.
    rewrite <- (firstn_skipn k l). apply in_or_app. now left.
  - apply IH. exact Hl.
Qed.

(** The pushes keep the accumulator as a prefix and append part of the
    scanned list; an appended clause has the key of no earlier entry. *)
Lemma fold_push (scanned : list clause) :
  forall acc : list clause,
  exists kept : list clause,
    fold_left (pushUnlessDuplicate n) scanned acc = (acc ++ kept)%list
    /\ incl kept scanned
    /\ Forall (fun m => forall a, In a acc -> ~ sameKey n a m) kept
    /\ (collisionFree n acc -> collisionFree n (acc ++ kept)).
Proof.
  induction scanned as [| m scanned IH]; intros acc.
  - exists []. rewrite app_nil_r. repeat split; auto. intros x [].
  - cbn [fold_left]. unfold pushUnlessDuplicate at 2.
    destruct (existsb (fun existing => collide n existing m) acc) eqn:Hdup.
    + destruct (IH acc) as [kept [Heq [Hincl [Hkeys Hfree]]]].
      exists kept. repeat split; auto.
      intros x Hx. right. apply Hincl. exact Hx.
    + destruct (IH (acc ++ [m])%list) as [kept [Heq [Hincl [Hkeys Hfree]]]].
      assert (Hm : Forall (fun a => ~ sameKey n a m) acc).
      { rewrite Forall_forall. intros a Ha. apply collide_false.
        destruct (collide n a m) eqn:Hc; [| reflexivity].
        assert (existsb (fun existing => collide n existing m) acc = true)
          by (apply existsb_exists; exists a; split; assumption).
        congruence. }
      exists (m :: kept). split; [| split; [| split]].
      * rewrite Heq, <- app_assoc. reflexivity.
      * intros x [Hx | Hx]; [left; exact Hx | right; apply Hincl; exact Hx].
      * constructor.
        -- rewrite Forall_forall in Hm. exact Hm.
        -- rewrite Forall_forall in *. intros k Hk a Ha.
           apply (Hkeys k Hk). apply in_or_app. now left.
      * intros Hacc.
        replace (acc ++ m :: kept)%list with ((acc ++ [m]) ++ kept)%list
          by (rewrite <- app_assoc; reflexivity).
        apply Hfree.
        apply collisionFree_snoc; assumption.
Qed.

End Dedup.

(** ** The merger *)

(** The merged list is the rule-based list followed by the model clauses
    that were pushed, cut at ten; a pushed model clause has the category
    and 50-unit quote prefix of no rule-based clause. *)
Lemma combineRiskyClauses_shape (ruleBased modelBased : list clause) :
  exists kept : list clause,
    combineRiskyClauses ruleBased modelBased = firstn 10 (ruleBased ++ kept)
    /\ incl kept modelBased
    /\ Forall (fun m => forall r, In r ruleBased -> ~ sameKey 50 r m) kept.
Proof.
  destruct (fold_push 50 modelBased ruleBased) as [kept [Heq [Hincl [Hkeys _]]]].
  exists kept. unfold combineRiskyClauses. rewrite Heq. auto.
Qed.

Lemma combineRiskyClauses_length (ruleBased modelBased : list clause) :
  (List.length (combineRiskyClauses ruleBased modelBased) <= 10)%nat.
Proof.
  unfold combineRiskyClauses. apply firstn_le_length.
Qed.

(** C6, as stated, fails: the merger starts from the rule-based list as it
    is, and the detector deduplicates it on 100 code units, not 50.  Two
    sentences that agree on their first 50 code units and differ later give
    two non-compete clauses that both reach the output. *)
Lemma merged_rule_clauses_may_share_prefix :
  let text := "During the term and for two years after it ends the Employee accepts a non-compete covenant. During the term and for two years after it ends the Employee accepts a noncompete covenant." in
  let ruleBased := detectRiskyClausesRuleBased text in
  List.length ruleBased = 2%nat
  /\ combineRiskyClauses ruleBased [] = ruleBased
  /\ ~ collisionFree 50 (combineRiskyClauses ruleBased []).
Proof.
  vm_compute. repeat split.
  intros [Hfirst _]. inversion Hfirst as [| ? ? Hkey _]; subst.
  apply Hkey. split; reflexivity.
Qed.

(** C6, amended: when no two rule-based clauses share category and first 50
    code units of quote, no two entries of the merged list do.  The merged
    list is the first ten entries of the rule-based list followed by the
    retained model clauses, and no retained model clause shares category
    and 50-unit quote prefix with a rule-based clause: in a collision the
    model clause is the one dropped. *)
Theorem combineRiskyClauses_dedup (ruleBased modelBased : list clause) :
  collisionFree 50 ruleBased ->
  collisionFree 50 (combineRiskyClauses ruleBased modelBased)
  /\ exists kept : list clause,
       combineRiskyClauses ruleBased modelBased = firstn 10 (ruleBased ++ kept)
       /\ incl kept modelBased
       /\ Forall (fun m => forall r, In r ruleBased -> ~ sameKey 50 r m) kept.
Proof.
  intros Hfree. split; [| apply combineRiskyClauses_shape].
  destruct (fold_push 50 modelBased ruleBased) as [kept [Heq [_ [_ Hkeep]]]].
  unfold combineRiskyClauses. rewrite Heq.
  apply collisionFree_firstn. apply Hkeep. exact Hfree.
Qed.

Lemma combineRiskyClauses_dedup_witness :
  let r := mkClause "Non-Compete Restriction" "Employee shall not compete..." None "High" "non-compete" (JS.ofZ 9) in
  let m := mkClause "Non-compete" "Employee shall not compete..." (Some (JS.Str "Limits future work.")) "High" "non-compete" (JS.ofZ 8) in
  collisionFree 50 [r]
  /\ collisionFree 50 (combineRiskyClauses [r] [m])
  /\ exists kept : list clause,
       combineRiskyClauses [r] [m] = firstn 10 ([r] ++ kept)
       /\ incl kept [m]
       /\ Forall (fun m' => forall r', In r' [r] -> ~ sameKey 50 r' m') kept.
Proof.
  assert (H : collisionFree 50
                [mkClause "Non-Compete Restriction" "Employee shall not compete..." None "High" "non-compete" (JS.ofZ 9)])
    by (simpl; split; [constructor | exact I]).
  split; [exact H |].
  exact (combineRiskyClauses_dedup _ _ H).
Defined.

(** * Properties of the detector *)

Lemma removeDuplicateClauses_incl (clauses : list clause) :
  incl (removeDuplicateClauses clauses) clauses.
Proof.
  unfold removeDuplicateClauses.
  destruct (fold_push 100 clauses []) as [kept [Heq [Hincl _]]].
  rewrite Heq. exact Hincl.
Qed.

Lemma removeDuplicateClauses_free (clauses : list clause) :
  collisionFree 100 (removeDuplicateClauses clauses).
Proof.
  unfold removeDuplicateClauses.
  destruct (fold_push 100 clauses []) as [kept [Heq [_ [_ Hfree]]]].
  rewrite Heq. apply Hfree. exact I.
Qed.

Lemma find_first {A : Type} (p : A -> bool) (l : list A) (x : A) :
  find p l = Some x <->
  exists before after : list A,
    l = (before ++ x :: after)%list
    /\ Forall (fun y => p y = false) before
    /\ p x = true.
Proof.
  split.
  - induction l as [| y l IH]; intros Hfind; [discriminate Hfind |].
    cbn [find] in Hfind. destruct (p y) eqn:Hy.
    + injection Hfind as <-. exists [], l. repeat split; [constructor | exact Hy].
    + destruct (IH Hfind) as (before & after & Hl & Hbefore & Hx).
      exists (y :: before), after. subst l. repeat split; [| exact Hx].
      constructor; [exact Hy | exact Hbefore].
  - intros (before & after & Hl & Hbefore & Hx). subst l.
    induction Hbefore as [| y before Hy _ IH]; cbn [app find].
    + now rewrite Hx.
    + now rewrite Hy.
Qed.

(** The sentence the detector attributes a match to is the first that
    contains it. *)
Lemma matchingSentence_first (text m sentence : string) :
  matchingSentence text m = Some sentence <-> firstSentenceWith text m sentence.
Proof.
  unfold matchingSentence, firstSentenceWith.
  exact (find_first
           (fun s => Text.includes (Text.toLowerCase s) (Text.toLowerCase m))
           (Text.splitSentences text) sentence).
Qed.

(** Where a detected clause comes from: an entry of the risk table, one of
    its patterns, a match of that pattern in the text, and the first
    sentence that contains the match. *)
Lemma detected_origin (text : string) (c : clause) :
  In c (detectRiskyClausesRuleBased text) ->
  exists (riskType : string) (config : riskConfig) (pattern m sentence : string),
    In (riskType, config) riskPatterns
    /\ In pattern (patterns config)
    /\ In m (Regex.matchAll pattern text)
    /\ matchingSentence text m = Some sentence
    /\ (0 < String.length (Text.trim sentence))%nat
    /\ c = mkClause (formatRiskTitle riskType) (quoteOf sentence) None
                    (configSeverity config) (configCategory config)
                    (JS.ofRounded
                       (calculateClauseRiskScore (configSeverity config)
                                                 (configCategory config))).
Proof.
  intros Hin. apply removeDuplicateClauses_incl in Hin.
  apply in_flat_map in Hin. destruct Hin as [[riskType config] [Hentry Hin]].
  unfold clausesOfRisk in Hin. cbn [fst snd] in Hin.
  apply in_flat_map in Hin. destruct Hin as [pattern [Hpattern Hin]].
  unfold clausesOfPattern in Hin.
  apply in_flat_map in Hin. destruct Hin as [m [Hm Hin]].
  unfold clausesOfMatch in Hin.
  destruct (matchingSentence text m) as [sentence |] eqn:Hsentence; [| contradiction].
  destruct (Nat.ltb_spec 0 (String.length (Text.trim sentence))) as [Hlen | Hlen];
    [| contradiction].
  destruct Hin as [Hc | []].
  exists riskType, config, pattern, m, sentence. auto 10.
Qed.

Lemma riskPatterns_severity (riskType : string) (config : riskConfig) :
  In (riskType, config) riskPatterns ->
  configSeverity config = "Medium" \/ configSeverity config = "High".
Proof.
  unfold riskPatterns. intros Hin.
  repeat (destruct Hin as [Hin | Hin];
          [inversion Hin; subst; cbn [configSeverity]; auto |]).
  contradiction.
Qed.

Lemma detected_validSeverity (text : string) :
  Forall validSeverity (detectRiskyClausesRuleBased text).
Proof.
  rewrite Forall_forall. intros c Hin.
  destruct (detected_origin text c Hin)
    as (riskType & config & pattern & m & sentence & Hentry & _ & _ & _ & _ & Hc).
  subst c. unfold validSeverity. cbn [severity].
  destruct (riskPatterns_severity _ _ Hentry) as [H | H]; rewrite H; auto.
Qed.

Lemma prefix_short (k : nat) (s : string) :
  (String.length s <= k)%nat -> JS.prefix k s = s.
Proof.
  unfold JS.prefix. revert k. induction s as [| a s IH]; intros [| k] Hlen;
    simpl in *; try reflexivity; try lia.
  f_equal. apply IH. lia.
Qed.

Lemma prefix_length (k : nat) (s : string) :
  (String.length (JS.prefix k s) <= k)%nat.
Proof.
  unfold JS.prefix. revert k. induction s as [| a s IH]; intros [| k];
    simpl; try lia.
  specialize (IH k). lia.
Qed.

(** ** The quote of a detected clause *)

(** C9, as stated, fails: the detector appends the ellipsis to every quote,
    also when the sentence is shorter than 300 code units. *)
Lemma short_sentence_still_gets_ellipsis :
  let sentence := "This agreement automatically renews for additional 12-month terms unless terminated with 90 days written notice" in
  (String.length (Text.trim sentence) <= 300)%nat
  /\ map quote (detectRiskyClausesRuleBased (sentence ++ "."))
     = [sentence ++ "..."]
  /\ sentence ++ "..." <> sentence.
Proof.
  split; [vm_compute; lia |].
  split; [vm_compute; reflexivity | vm_compute; discriminate].
Qed.

(** C9, amended: every detected clause comes from a match of a pattern of
    its category's entry, and its quote is the first 300 code units of the
    trimmed first sentence that contains the match, always followed by an
    ellipsis; when the trimmed sentence has at most 300 code units the
    quote is that sentence followed by the ellipsis. *)
Theorem detected_quote (text : string) (c : clause) :
  In c (detectRiskyClausesRuleBased text) ->
  exists (riskType : string) (config : riskConfig) (pattern m sentence : string),
    In (riskType, config) riskPatterns
    /\ category c = configCategory config
    /\ In pattern (patterns config)
    /\ In m (Regex.matchAll pattern text)
    /\ firstSentenceWith text m sentence
    /\ Text.trim sentence <> ""
    /\ quote c = JS.prefix 300 (Text.trim sentence) ++ "..."
    /\ ((String.length (Text.trim sentence) <= 300)%nat ->
        quote c = Text.trim sentence ++ "...").
Proof.
  intros Hin.
  destruct (detected_origin text c Hin)
    as (riskType & config & pattern & m & sentence
        & Hentry & Hpattern & Hm & Hfind & Hlen & Hc).
  exists riskType, config, pattern, m, sentence. subst c.
  cbn [quote category]. unfold quoteOf.
  split; [exact Hentry |]. split; [reflexivity |].
  split; [exact Hpattern |]. split; [exact Hm |].
  split; [apply matchingSentence_first; exact Hfind |].
  split; [| split].
  - intros Hempty. rewrite Hempty in Hlen. simpl in Hlen. lia.
  - reflexivity.
  - intros Hshort. now rewrite prefix_short.
Qed.

Lemma detected_quote_witness :
  let text := "Fees paid are non-refundable. Thank you!" in
  let c := mkClause "Refund Restrictions" "Fees paid are non-refundable..." None
                    "Medium" "refund-restrictions" (JS.ofZ 4) in
  In c (detectRiskyClausesRuleBased text)
  /\ exists (riskType : string) (config : riskConfig) (pattern m sentence : string),
       In (riskType, config) riskPatterns
       /\ category c = configCategory config
       /\ In pattern (patterns config)
       /\ In m (Regex.matchAll pattern text)
       /\ firstSentenceWith text m sentence
       /\ Text.trim sentence <> ""
       /\ quote c = JS.prefix 300 (Text.trim sentence) ++ "..."
       /\ ((String.length (Text.trim sentence) <= 300)%nat ->
           quote c = Text.trim sentence ++ "...").
Proof.
  assert (H : In (mkClause "Refund Restrictions" "Fees paid are non-refundable..." None
                           "Medium" "refund-restrictions" (JS.ofZ 4))
                 (detectRiskyClausesRuleBased "Fees paid are non-refundable. Thank you!"))
    by (vm_compute; left; reflexivity).
  split; [exact H | exact (detected_quote _ _ H)].
Defined.

(** * Properties of the orchestration *)

Lemma enhanceFrom_explained (oracle : nat -> option string) (clauses : list clause) :
  forall k : nat, Forall2 explained clauses (fst (enhanceFrom oracle k clauses)).
Proof.
  induction clauses as [| c rest IH]; intros k; cbn [enhanceFrom].
  - constructor.
  - destruct (lacksExplanation c) eqn:Hlacks.
    + specialize (IH (S k)).
      destruct (enhanceFrom oracle (S k) rest) as [enhanced k'].
      cbn [fst] in *. constructor; [| exact IH].
      unfold explained. cbn. repeat split. discriminate.
    + specialize (IH k).
      destruct (enhanceFrom oracle k rest) as [enhanced k'].
      cbn [fst] in *. constructor; [| exact IH].
      unfold explained. repeat split.
      unfold lacksExplanation in Hlacks.
      destruct (explanation c); [discriminate | discriminate].
Qed.

Lemma enhance_length (oracle : nat -> option string) (clauses : list clause) :
  List.length (enhanceClausesWithExplanations oracle clauses) = List.length clauses.
Proof.
  unfold enhanceClausesWithExplanations.
  symmetry. apply (Forall2_length (enhanceFrom_explained oracle clauses 0)).
Qed.

Lemma generateRecommendation_label (score : option Z) (cs : list clause) :
  In (generateRecommendation score cs)
     ["Safe to sign"; "Review carefully"; "Avoid signing"].
Proof.
  unfold generateRecommendation. cbv zeta.
  destruct (_ || _); [simpl; auto |].
  destruct (_ || _); simpl; auto.
Qed.

Lemma score_percentage (cs : list clause) :
  Forall scorable cs -> (List.length cs <= manyClauses)%nat ->
  exists z : Z, calculateOverallRiskScore cs = Some z /\ 0 <= z <= 100.
Proof.
  intros Hv Hlen. destruct cs as [| c cs'].
  - exists 20. split; [reflexivity | lia].
  - destruct (score_number (c :: cs') ltac:(discriminate) Hv Hlen) as [z [Hz Hb]].
    pose proof (floorOf_bounds (List.length (c :: cs'))
                  ltac:(cbn [List.length]; lia)).
    exists z. split; [exact Hz | lia].
Qed.

(** The result of the [catch] block. *)
Lemma analyzeContractCatch_result (text fileName : string) :
  let r := analyzeContractCatch text fileName in
  riskyClauses r
  = map (fun c => setExplanation c
                    (JS.or_field (explanation c) (getDefaultExplanation (category c))))
        (detectRiskyClausesRuleBased text)
  /\ overallRiskScore r = calculateOverallRiskScore (riskyClauses r)
  /\ recommendation r = generateRecommendation (overallRiskScore r) (riskyClauses r)
  /\ aiModel r = "rule-based-fallback"
  /\ confidence r = (6 # 10)%Q.
Proof.
  unfold analyzeContractCatch, createFallbackAnalysis. cbv zeta.
  cbn [riskyClauses overallRiskScore recommendation aiModel confidence].
  set (enhanced := map _ (detectRiskyClausesRuleBased text)).
  assert (Hsame : (if (List.length enhanced =? 0)%nat
                   then detectRiskyClausesRuleBased text else enhanced) = enhanced).
  { destruct (Nat.eqb_spec (List.length enhanced) 0) as [Hzero | _]; [| reflexivity].
    unfold enhanced in *. rewrite length_map in Hzero.
    apply length_zero_iff_nil in Hzero. rewrite Hzero. reflexivity. }
  rewrite Hsame. repeat split.
Qed.

(** The result of the [try] block when the reply does not parse. *)
Lemma analyzeContractTry_BadJson (oracle : nat -> option string)
    (text fileName : string) :
  exists r : AnalysisResult,
    analyzeContractTry BadJson oracle text fileName = inr r
    /\ riskyClauses r
       = enhanceClausesWithExplanations oracle
           (combineRiskyClauses (detectRiskyClausesRuleBased text)
                                (detectRiskyClausesRuleBased text))
    /\ overallRiskScore r = calculateOverallRiskScore (riskyClauses r)
    /\ recommendation r = generateRecommendation (overallRiskScore r) (riskyClauses r)
    /\ aiModel r = "gpt-4"
    /\ confidence r = (6 # 10)%Q.
Proof.
  eexists. split; [reflexivity |].
  cbn [riskyClauses overallRiskScore recommendation aiModel confidence].
  repeat split.
Qed.

Lemma combineRiskyClauses_Forall (P : clause -> Prop)
    (ruleBased modelBased : list clause) :
  Forall P ruleBased -> Forall P modelBased ->
  Forall P (combineRiskyClauses ruleBased modelBased).
Proof.
  intros Hrule Hmodel.
  destruct (combineRiskyClauses_shape ruleBased modelBased)
    as [kept [Heq [Hincl _]]].
  rewrite Heq. rewrite Forall_forall in *. intros c Hc.
  assert (Hin : In c (ruleBased ++ kept)).
  { rewrite <- (firstn_skipn 10 (ruleBased ++ kept)).
    apply in_or_app. now left. }
  apply in_app_or in Hin. destruct Hin as [Hin | Hin].
  - apply Hrule. exact Hin.
  - apply Hmodel. apply Hincl. exact Hin.
Qed.

Lemma string_length_append (s t : string) :
  String.length (s ++ t) = (String.length s + String.length t)%nat.
Proof.
  induction s as [| a s IH]; cbn [append String.length]; [| rewrite IH]; reflexivity.
Qed.

Lemma quoteOf_length (sentence : string) :
  (String.length (quoteOf sentence) <= 303)%nat.
Proof.
  unfold quoteOf. rewrite string_length_append.
  pose proof (prefix_length 300 (Text.trim sentence)).
  change (String.length "...") with 3%nat. lia.
Qed.

(** What each entry of the risk table gives its clauses: a category of the
    data model that names no inherited property, an integer score within
    1..10, and a default explanation that is a text. *)
Lemma riskPatterns_entry (riskType : string) (config : riskConfig) :
  In (riskType, config) riskPatterns ->
  In (configCategory config) categories
  /\ ~ In (configCategory config) JS.prototypeKeys
  /\ isScore (JS.ofRounded
                (calculateClauseRiskScore (configSeverity config)
                                          (configCategory config)))
  /\ exists e : string,
       getDefaultExplanation (configCategory config) = JS.Str e /\ e <> "".
Proof.
  unfold riskPatterns, isScore. intros Hin.
  repeat (destruct Hin as [Hin | Hin];
          [inversion Hin; subst; cbn [configSeverity configCategory];
           split; [unfold categories; simpl; tauto |];
           split; [simpl; intros K;
                   repeat (destruct K as [K | K]; [discriminate K |]); exact K |];
           split;
           [match goal with
            | |- exists z : Z, JS.ofRounded ?t = _ /\ _ =>
                let v := eval vm_compute in t in
                match v with
                | JS.RInt ?z => exists z; split; [vm_compute; reflexivity | lia]
                end
            end |];
           eexists; split; [vm_compute; reflexivity | discriminate] |]).
  contradiction.
Qed.

Lemma detected_invariant (text : string) :
  Forall clauseInvariant (detectRiskyClausesRuleBased text).
Proof.
  pose proof (detected_validSeverity text) as Hvalid.
  rewrite Forall_forall in *. intros c Hin.
  destruct (detected_origin text c Hin)
    as (riskType & config & pattern & m & sentence & Hentry & _ & _ & _ & _ & Hc).
  destruct (riskPatterns_entry _ _ Hentry) as (Hcat & _ & Hscore & _).
  split; [apply Hvalid; exact Hin |].
  subst c. cbn [category riskScore quote].
  split; [exact Hcat | split; [exact Hscore | apply quoteOf_length]].
Qed.

(** A detected clause is scorable, lacks an explanation, and its category
    has a default explanation. *)
Lemma detected_scorable (text : string) :
  Forall (fun c => scorable c
                   /\ explanation c = None
                   /\ exists e : string,
                        getDefaultExplanation (category c) = JS.Str e /\ e <> "")
         (detectRiskyClausesRuleBased text).
Proof.
  pose proof (detected_validSeverity text) as Hvalid.
  rewrite Forall_forall in *. intros c Hin.
  destruct (detected_origin text c Hin)
    as (riskType & config & pattern & m & sentence & Hentry & _ & _ & _ & _ & Hc).
  destruct (riskPatterns_entry _ _ Hentry) as (_ & Hplain & Hscore & Hdefault).
  split; [| subst c; split; [reflexivity | exact Hdefault]].
  split; [apply Hvalid; exact Hin |].
  subst c. unfold plainCategory. cbn [category riskScore].
  split; [exact Hplain |].
  destruct Hscore as [z [-> Hz]]. apply ofZ_nonneg. lia.
Qed.

Lemma explained_invariant (c d : clause) :
  explained c d -> clauseInvariant c -> clauseInvariant d /\ explanation d <> None.
Proof.
  intros (_ & Hquote & Hsev & Hcat & Hscore & Hexpl) Hc.
  unfold clauseInvariant, validSeverity in *.
  rewrite Hquote, Hsev, Hcat, Hscore. split; [exact Hc | exact Hexpl].
Qed.

Lemma explained_all (cs ds : list clause) :
  Forall2 explained cs ds -> Forall clauseInvariant cs ->
  Forall (fun d => clauseInvariant d /\ explanation d <> None) ds.
Proof.
  induction 1 as [| c d cs ds Hcd _ IH]; intros Hinv; [constructor |].
  inversion Hinv as [| ? ? Hc Hcs]; subst.
  constructor; [apply (explained_invariant c d Hcd Hc) | apply IH; exact Hcs].
Qed.

Lemma explained_scorable (cs ds : list clause) :
  Forall2 explained cs ds -> Forall scorable cs -> Forall scorable ds.
Proof.
  induction 1 as [| c d cs ds Hcd _ IH]; intros Hinv; [constructor |].
  inversion Hinv as [| ? ? Hc Hcs]; subst.
  constructor; [| apply IH; exact Hcs].
  destruct Hcd as (_ & _ & Hsev & Hcat & Hscore & _).
  unfold scorable, validSeverity, plainCategory in *.
  rewrite Hsev, Hcat, Hscore. exact Hc.
Qed.

Lemma explained_sameKey (n : nat) (a a' b b' : clause) :
  explained a a' -> explained b b' -> sameKey n a' b' -> sameKey n a b.
Proof.
  intros (_ & Hqa & _ & Hca & _) (_ & Hqb & _ & Hcb & _) [Hc Hq].
  split; congruence.
Qed.

(** The explanation step keeps a list free of collisions. *)
Lemma explained_collisionFree (n : nat) (cs ds : list clause) :
  Forall2 explained cs ds -> collisionFree n cs -> collisionFree n ds.
Proof.
  induction 1 as [| c d cs ds Hcd Hrest IH]; intros Hfree; [exact I |].
  destruct Hfree as [Hc Hcs]. split; [| apply IH; exact Hcs].
  clear IH Hcs. induction Hrest as [| c' d' cs ds Hcd' _ IH']; [constructor |].
  inversion Hc as [| ? ? Hcc' Hc']; subst.
  constructor; [| apply IH'; exact Hc'].
  intros Hkey. apply Hcc'. exact (explained_sameKey n c d c' d' Hcd Hcd' Hkey).
Qed.

(** What the [catch] block does to the detected clauses. *)
Lemma defaulting_explained (cs : list clause) :
  Forall2 explained cs
    (map (fun c => setExplanation c
                     (JS.or_field (explanation c) (getDefaultExplanation (category c))))
         cs).
Proof.
  induction cs as [| c cs IH]; cbn [map]; constructor; [| exact IH].
  unfold explained. cbn. repeat split. discriminate.
Qed.

(** When the explanation service never answers with a blank text, a clause
    that lacked an explanation and whose category has a default text leaves
    the explanation step with an explanation that is not empty. *)
Lemma enhanceFrom_hasExplanation (oracle : nat -> option string)
    (clauses : list clause) :
  (forall (k : nat) (s : string), oracle k = Some s -> Text.trim s <> "") ->
  Forall (fun c => explanation c = None
                   /\ exists e : string,
                        getDefaultExplanation (category c) = JS.Str e /\ e <> "")
         clauses ->
  forall k : nat, Forall hasExplanation (fst (enhanceFrom oracle k clauses)).
Proof.
  intros Horacle Hall.
  induction Hall as [| c rest [Hnone [e [Hdefault He]]] _ IH]; intros k;
    cbn [enhanceFrom]; [constructor |].
  unfold lacksExplanation. rewrite Hnone.
  specialize (IH (S k)).
  destruct (enhanceFrom oracle (S k) rest) as [enhanced k'].
  cbn [fst] in *. constructor; [| exact IH].
  unfold hasExplanation, setExplanation. cbn [explanation].
  destruct (oracle k) as [s |] eqn:Hs.
  - exists (Text.trim s). split; [reflexivity | exact (Horacle k s Hs)].
  - exists e. split; [rewrite Hdefault; reflexivity | exact He].
Qed.

Lemma Forall_firstn {A : Type} (P : A -> Prop) (k : nat) (l : list A) :
  Forall P l -> Forall P (firstn k l).
Proof.
  intros H. rewrite Forall_forall in *. intros x Hx. apply H.
  rewrite <- (firstn_skipn k l). apply in_or_app. now left.
Qed.

Lemma fold_push_all_duplicates (n : nat) (scanned acc : list clause) :
  Forall (fun m => exists a, In a acc /\ sameKey n a m) scanned ->
  fold_left (pushUnlessDuplicate n) scanned acc = acc.
Proof.
  induction 1 as [| m scanned [a [Ha Hkey]] _ IH]; [reflexivity |].
  cbn [fold_left]. unfold pushUnlessDuplicate at 2.
  assert (Hdup : existsb (fun existing => collide n existing m) acc = true).
  { apply existsb_exists. exists a. split; [exact Ha |].
    apply collide_sameKey. exact Hkey. }
  rewrite Hdup. exact IH.
Qed.

Lemma combine_with_itself (clauses : list clause) :
  combineRiskyClauses clauses clauses = firstn 10 clauses.
Proof.
  unfold combineRiskyClauses. rewrite fold_push_all_duplicates; [reflexivity |].
  rewrite Forall_forall. intros m Hm. exists m. split; [exact Hm | split; reflexivity].
Qed.

(** ** The fallback paths *)

(** What does hold on the two fallback paths.  When the bulk call fails
    and the detector finds at most ten clauses, or when the reply does not
    parse and the explanation service never answers with a blank text, the
    result is well formed and its confidence is 0.6. *)
Lemma fallback_well_formed (bulk : completion) (oracle : nat -> option string)
    (text fileName : string) :
  (bulk = CallFails /\ (List.length (detectRiskyClausesRuleBased text) <= 10)%nat)
  \/ (bulk = BadJson
      /\ forall (k : nat) (s : string), oracle k = Some s -> Text.trim s <> "") ->
  confidence (analyzeContract bulk oracle text fileName) = (6 # 10)%Q
  /\ wellFormed (analyzeContract bulk oracle text fileName).
Proof.
  pose proof (detected_scorable text) as Hdet.
  pose proof (detected_invariant text) as Hinv.
  pose proof (removeDuplicateClauses_free
                (flat_map (clausesOfRisk text) riskPatterns)) as Hfree.
  change (removeDuplicateClauses (flat_map (clausesOfRisk text) riskPatterns))
    with (detectRiskyClausesRuleBased text) in Hfree.
  assert (Hscorable : Forall scorable (detectRiskyClausesRuleBased text)).
  { eapply Forall_impl; [| exact Hdet]. intros c H. apply H. }
  assert (Hlacking : Forall (fun c => explanation c = None
                       /\ exists e : string,
                            getDefaultExplanation (category c) = JS.Str e /\ e <> "")
                      (detectRiskyClausesRuleBased text)).
  { eapply Forall_impl; [| exact Hdet]. intros c H. apply H. }
  intros [[Hbulk Hten] | [Hbulk Horacle]]; subst bulk.
  - change (analyzeContract CallFails oracle text fileName)
      with (analyzeContractCatch text fileName).
    destruct (analyzeContractCatch_result text fileName)
      as (Hclauses & Hscore & Hadvice & _ & Hconf).
    pose proof (defaulting_explained (detectRiskyClausesRuleBased text)) as Hex.
    rewrite <- Hclauses in Hex.
    split; [exact Hconf |]. unfold wellFormed.
    split; [rewrite Hclauses, length_map; exact Hten |].
    split; [exact (explained_collisionFree 100 _ _ Hex Hfree) |].
    split; [rewrite Hscore; apply score_percentage;
            [exact (explained_scorable _ _ Hex Hscorable)
            | rewrite Hclauses, length_map; unfold manyClauses; lia] |].
    split; [exact Hscore |]. split; [exact Hadvice |].
    split; [rewrite Hadvice; apply generateRecommendation_label |].
    split; [| rewrite Hconf; split; discriminate].
    pose proof (explained_all _ _ Hex Hinv) as Hall.
    rewrite Forall_forall in *. intros d Hd. split; [apply (Hall d Hd) |].
    rewrite Hclauses in Hd. apply in_map_iff in Hd as [c [<- Hc]].
    destruct (Hlacking c Hc) as [Hnone [e [Hdefault He]]].
    exists e. unfold setExplanation. cbn [explanation].
    rewrite Hnone. cbn [JS.or_field]. rewrite Hdefault. split; [reflexivity | exact He].
  - destruct (analyzeContractTry_BadJson oracle text fileName)
      as (r & Htry & Hclauses & Hscore & Hadvice & _ & Hconf).
    unfold analyzeContract. rewrite Htry.
    rewrite combine_with_itself in Hclauses.
    pose proof (enhanceFrom_explained oracle
                  (firstn 10 (detectRiskyClausesRuleBased text)) 0) as Hex.
    change (fst (enhanceFrom oracle 0 (firstn 10 (detectRiskyClausesRuleBased text))))
      with (enhanceClausesWithExplanations oracle
              (firstn 10 (detectRiskyClausesRuleBased text))) in Hex.
    rewrite <- Hclauses in Hex.
    assert (Hlen : (List.length (riskyClauses r) <= 10)%nat).
    { rewrite Hclauses, enhance_length. apply firstn_le_length. }
    split; [exact Hconf |]. unfold wellFormed.
    split; [exact Hlen |].
    split; [apply (explained_collisionFree 100 _ _ Hex);
            apply collisionFree_firstn; exact Hfree |].
    split; [rewrite Hscore; apply score_percentage;
            [apply (explained_scorable _ _ Hex); apply Forall_firstn; exact Hscorable
            | unfold manyClauses; lia] |].
    split; [exact Hscore |]. split; [exact Hadvice |].
    split; [rewrite Hadvice; apply generateRecommendation_label |].
    split; [| rewrite Hconf; split; discriminate].
    pose proof (explained_all _ _ Hex (Forall_firstn _ 10 _ Hinv)) as Hall.
    assert (Hhas : Forall hasExplanation (riskyClauses r)).
    { rewrite Hclauses. unfold enhanceClausesWithExplanations.
      apply enhanceFrom_hasExplanation; [exact Horacle |].
      apply Forall_firstn. exact Hlacking. }
    rewrite Forall_forall in *. intros d Hd.
    split; [apply (Hall d Hd) | apply (Hhas d Hd)].
Qed.

(** An explanation call that answers with a blank text leaves the clause
    with an empty explanation: the text is stored as it comes, where a
    failed call gets the default text of the category. *)
Example blank_explanation_is_kept :
  let r := analyzeContract BadJson (fun _ => Some " ")
             "A cancellation fee applies." "lease.pdf" in
  map explanation (riskyClauses r) = [Some (JS.Str "")]
  /\ ~ wellFormed r.
Proof.
  cbv zeta.
  assert (H : map explanation
                (riskyClauses (analyzeContract BadJson (fun _ => Some " ")
                                 "A cancellation fee applies." "lease.pdf"))
              = [Some (JS.Str "")])
    by (vm_compute; reflexivity).
  split; [exact H |].
  intros (_ & _ & _ & _ & _ & _ & Hall & _).
  destruct (riskyClauses _) as [| c rest]; [discriminate H |].
  inversion Hall as [| ? ? [_ [e [He Hne]]] _]; subst.
  cbn [map] in H. injection H as H _. rewrite He in H.
  injection H as H. contradiction.
Qed.

(** C3 fails on the code: when the bulk call fails on [twelveRisks], the
    result has confidence 0.6 but holds twelve clauses, two more than a
    well-formed result may hold; the [catch] block misses the cut at ten of
    the merger. *)
Theorem fallback_result_is_not_well_formed :
  forall (oracle : nat -> option string) (fileName : string),
    let r := analyzeContract CallFails oracle twelveRisks fileName in
    confidence r = (6 # 10)%Q
    /\ List.length (riskyClauses r) = 12%nat
    /\ ~ wellFormed r.
Proof.
  intros oracle fileName. cbv zeta.
  change (analyzeContract CallFails oracle twelveRisks fileName)
    with (analyzeContractCatch twelveRisks fileName).
  destruct (analyzeContractCatch_result twelveRisks fileName)
    as (Hclauses & _ & _ & _ & Hconf).
  assert (Hlen : List.length (riskyClauses (analyzeContractCatch twelveRisks fileName))
                 = 12%nat).
  { rewrite Hclauses, length_map. vm_compute. reflexivity. }
  split; [exact Hconf |]. split; [exact Hlen |].
  intros [Hcap _]. rewrite Hlen in Hcap. lia.
Qed.

(** ** The cap on the number of clauses *)

(** Whenever the bulk call returns a reply the block can use, parsed or
    not, the result goes through the merger and holds at most ten clauses. *)
Lemma analyzeContract_capped_when_call_returns (bulk : completion)
    (oracle : nat -> option string) (text fileName : string) :
  bulk = BadJson \/ (exists reply : aiAnalysis, bulk = Parsed reply) ->
  (List.length (riskyClauses (analyzeContract bulk oracle text fileName)) <= 10)%nat.
Proof.
  intros [-> | [reply ->]]; unfold analyzeContract, analyzeContractTry;
    cbn [riskyClauses]; rewrite enhance_length; apply combineRiskyClauses_length.
Qed.

(** C2 fails on the code: when the bulk call fails, the [catch] block
    returns the detector's list without the cut at ten that the merger
    applies on the other path; on [twelveRisks] the result holds twelve
    clauses. *)
Theorem fallback_result_exceeds_the_cap :
  forall (oracle : nat -> option string) (fileName : string),
    List.length (riskyClauses (analyzeContract CallFails oracle twelveRisks fileName))
    = 12%nat.
Proof.
  intros oracle fileName.
  change (analyzeContract CallFails oracle twelveRisks fileName)
    with (analyzeContractCatch twelveRisks fileName).
  destruct (analyzeContractCatch_result twelveRisks fileName) as (Hclauses & _).
  rewrite Hclauses, length_map. vm_compute. reflexivity.
Qed.

(** * Further properties of the engine *)

(** ** The per-clause score *)

(** The score [calculateClauseRiskScore] gives is [NaN] when the severity
    or the category names a property every object inherits, and otherwise
    an integer between 2 and 9, inside the 1..10 the clause schema asks. *)
Theorem calculateClauseRiskScore_range (sev cat : string) :
  (In sev JS.prototypeKeys \/ In cat JS.prototypeKeys ->
   calculateClauseRiskScore sev cat = JS.RNaN)
  /\ (~ In sev JS.prototypeKeys -> ~ In cat JS.prototypeKeys ->
      exists z : Z, calculateClauseRiskScore sev cat = JS.RInt z /\ 2 <= z <= 9).
Proof.
  split.
  - intros [Hin | Hin]; unfold calculateClauseRiskScore; cbv zeta.
    + rewrite (index_inherited _ _ (proj1 (inherited_not_owned sev Hin)) Hin).
      reflexivity.
    + rewrite (index_inherited _ _
                 (proj1 (proj2 (inherited_not_owned cat Hin))) Hin).
      cbn [JS.or_number]. rewrite mul_nan_r. reflexivity.
  - intros Hsev Hcat.
    apply not_inherited_spec in Hsev. apply not_inherited_spec in Hcat.
    unfold calculateClauseRiskScore, JS.index, severityScores, categoryWeights.
    cbn [JS.get]. cbv zeta.
    repeat match goal with
           | |- context [String.eqb ?k sev] => destruct (String.eqb k sev)
           | |- context [String.eqb ?k cat] => destruct (String.eqb k cat)
           end;
      rewrite ?Hsev, ?Hcat;
      eexists; (split; [vm_compute; reflexivity | lia]).
Qed.

(** ** [removeDuplicateClauses] *)

Section DedupMore.

Variable n : nat.

Lemma sameKey_refl (a : clause) : sameKey n a a.
Proof.
  split; reflexivity.
Qed.

Lemma sameKey_trans (a b c : clause) :
  sameKey n a b -> sameKey n b c -> sameKey n a c.
Proof.
  intros [H1 H2] [H3 H4]. split; congruence.
Qed.

Lemma push_keeps (kept : list clause) (c a : clause) :
  In a kept -> In a (pushUnlessDuplicate n kept c).
Proof.
  unfold pushUnlessDuplicate. intros Ha.
  destruct (existsb _ kept); [exact Ha | apply in_or_app; now left].
Qed.

(** Every clause met, in the accumulator or among the scanned ones, has a
    clause of its key in the result. *)
Lemma fold_push_represents (scanned : list clause) :
  forall (acc : list clause) (c : clause),
    In c acc \/ In c scanned ->
    exists d : clause,
      In d (fold_left (pushUnlessDuplicate n) scanned acc) /\ sameKey n d c.
Proof.
  induction scanned as [| m scanned IH]; intros acc c Hc.
  - destruct Hc as [Hc | []]. exists c. split; [exact Hc | apply sameKey_refl].
  - cbn [fold_left]. destruct Hc as [Hc | [Hc | Hc]].
    + apply IH. left. apply push_keeps. exact Hc.
    + subst m. unfold pushUnlessDuplicate at 2.
      destruct (existsb (fun existing => collide n existing c) acc) eqn:Hdup.
      * apply existsb_exists in Hdup. destruct Hdup as [a [Ha Hcol]].
        apply collide_sameKey in Hcol.
        destruct (IH acc a (or_introl Ha)) as [d [Hd Hda]].
        exists d. split; [exact Hd | eapply sameKey_trans; eassumption].
      * apply IH. left. apply in_or_app. right. now left.
    + apply IH. now right.
Qed.

Lemma collisionFree_middle (l1 l2 : list clause) (x : clause) :
  collisionFree n (l1 ++ x :: l2) -> Forall (fun a => ~ sameKey n a x) l1.
Proof.
  induction l1 as [| a l1 IH]; intros Hfree; [constructor |].
  destruct Hfree as [Ha Hrest]. constructor.
  - rewrite Forall_forall in Ha. apply Ha. apply in_or_app. right. now left.
  - apply IH. exact Hrest.
Qed.

(** On a list without two entries of the same key, the pushes keep all. *)
Lemma fold_push_free (scanned : list clause) :
  forall acc : list clause,
    collisionFree n (acc ++ scanned) ->
    fold_left (pushUnlessDuplicate n) scanned acc = (acc ++ scanned)%list.
Proof.
  induction scanned as [| m scanned IH]; intros acc Hfree.
  - now rewrite app_nil_r.
  - cbn [fold_left]. unfold pushUnlessDuplicate at 2.
    pose proof (collisionFree_middle acc scanned m Hfree) as Hm.
    destruct (existsb (fun existing => collide n existing m) acc) eqn:Hdup.
    + apply existsb_exists in Hdup. destruct Hdup as [a [Ha Hcol]].
      apply collide_sameKey in Hcol. rewrite Forall_forall in Hm.
      exfalso. exact (Hm a Ha Hcol).
    + rewrite IH; rewrite <- app_assoc; [reflexivity | exact Hfree].
Qed.

End DedupMore.

(** The deduplicated list holds no two clauses with the same category and
    the same first 100 code units of quote, and holds input clauses only. *)
Theorem removeDuplicateClauses_unique (clauses : list clause) :
  collisionFree 100 (removeDuplicateClauses clauses)
  /\ incl (removeDuplicateClauses clauses) clauses.
Proof.
  unfold removeDuplicateClauses.
  destruct (fold_push 100 clauses []) as [kept [Heq [Hincl [_ Hfree]]]].
  rewrite Heq. split; [apply Hfree; exact I | exact Hincl].
Qed.

(** No clause is lost without a stand-in: every input clause has, in the
    deduplicated list, a clause of its category and 100-unit quote prefix. *)
Theorem removeDuplicateClauses_represents (clauses : list clause) (c : clause) :
  In c clauses ->
  exists d : clause,
    In d (removeDuplicateClauses clauses) /\ sameKey 100 d c.
Proof.
  intros Hc. unfold removeDuplicateClauses.
  apply fold_push_represents. now right.
Qed.

Lemma removeDuplicateClauses_represents_witness :
  let a := mkClause "Additional Fees" "A processing fee is due..." None "Medium" "hidden-fees" (JS.ofZ 4) in
  let b := mkClause "Fees" "A processing fee is due..." (Some (JS.Str "Extra cost.")) "Low" "hidden-fees" (JS.ofZ 2) in
  In b [a; b]
  /\ exists d : clause, In d (removeDuplicateClauses [a; b]) /\ sameKey 100 d b.
Proof.
  assert (H : In (mkClause "Fees" "A processing fee is due..." (Some (JS.Str "Extra cost."))
                           "Low" "hidden-fees" (JS.ofZ 2))
                 [mkClause "Additional Fees" "A processing fee is due..." None
                           "Medium" "hidden-fees" (JS.ofZ 4);
                  mkClause "Fees" "A processing fee is due..." (Some (JS.Str "Extra cost."))
                           "Low" "hidden-fees" (JS.ofZ 2)])
    by (right; left; reflexivity).
  split; [exact H | exact (removeDuplicateClauses_represents _ _ H)].
Defined.

(** Deduplicating twice changes nothing more. *)
Theorem removeDuplicateClauses_idempotent (clauses : list clause) :
  removeDuplicateClauses (removeDuplicateClauses clauses)
  = removeDuplicateClauses clauses.
Proof.
  unfold removeDuplicateClauses at 1.
  rewrite fold_push_free; [reflexivity |].
  apply removeDuplicateClauses_free.
Qed.

(** ** The detector *)

(** No clause without a match: a detected clause takes its title, severity,
    category and score from one entry of the risk table, one pattern of
    that entry matches the text, and the quote is built from the first
    sentence that contains the matched text, case ignored: no sentence
    before it contains the matched text. *)
Theorem detected_clause_has_a_match (text : string) (c : clause) :
  In c (detectRiskyClausesRuleBased text) ->
  exists (riskType : string) (config : riskConfig) (pattern m sentence : string),
    In (riskType, config) riskPatterns
    /\ In pattern (patterns config)
    /\ In m (Regex.matchAll pattern text)
    /\ firstSentenceWith text m sentence
    /\ In sentence (Text.splitSentences text)
    /\ Text.includes (Text.toLowerCase sentence) (Text.toLowerCase m) = true
    /\ title c = formatRiskTitle riskType
    /\ severity c = configSeverity config
    /\ category c = configCategory config
    /\ riskScore c = JS.ofRounded (calculateClauseRiskScore (configSeverity config)
                                                            (configCategory config))
    /\ quote c = quoteOf sentence.
Proof.
  intros Hin.
  destruct (detected_origin text c Hin)
    as (riskType & config & pattern & m & sentence
        & Hentry & Hpattern & Hm & Hfind & _ & Hc).
  exists riskType, config, pattern, m, sentence.
  pose proof (proj1 (matchingSentence_first text m sentence) Hfind) as Hfirst.
  unfold matchingSentence in Hfind. apply find_some in Hfind.
  destruct Hfind as [Hsentence Hincludes].
  subst c. cbn [title severity category riskScore quote]. auto 14.
Qed.

Lemma detected_clause_has_a_match_witness :
  let text := "Disputes go to binding arbitration! Fine." in
  let c := mkClause "Mandatory Arbitration" "Disputes go to binding arbitration..."
                    None "Medium" "arbitration" (JS.ofZ 5) in
  In c (detectRiskyClausesRuleBased text)
  /\ exists (riskType : string) (config : riskConfig) (pattern m sentence : string),
       In (riskType, config) riskPatterns
       /\ In pattern (patterns config)
       /\ In m (Regex.matchAll pattern text)
       /\ firstSentenceWith text m sentence
       /\ In sentence (Text.splitSentences text)
       /\ Text.includes (Text.toLowerCase sentence) (Text.toLowerCase m) = true
       /\ title c = formatRiskTitle riskType
       /\ severity c = configSeverity config
       /\ category c = configCategory config
       /\ riskScore c = JS.ofRounded (calculateClauseRiskScore (configSeverity config)
                                                               (configCategory config))
       /\ quote c = quoteOf sentence.
Proof.
  assert (H : In (mkClause "Mandatory Arbitration" "Disputes go to binding arbitration..."
                           None "Medium" "arbitration" (JS.ofZ 5))
                 (detectRiskyClausesRuleBased "Disputes go to binding arbitration! Fine."))
    by (vm_compute; left; reflexivity).
  split; [exact H | exact (detected_clause_has_a_match _ _ H)].
Defined.

(** The category of a detected clause fixes its title, its severity and its
    score, as listed in [detectorTable]; the clause carries no explanation
    yet. *)
Theorem detected_clause_by_category (text : string) (c : clause) :
  In c (detectRiskyClausesRuleBased text) ->
  JS.get detectorTable (category c) = Some (title c, severity c, riskScore c)
  /\ explanation c = None.
Proof.
  intros Hin.
  destruct (detected_origin text c Hin)
    as (riskType & config & pattern & m & sentence & Hentry & _ & _ & _ & _ & Hc).
  subst c. cbn [title severity category riskScore explanation].
  unfold riskPatterns in Hentry.
  repeat (destruct Hentry as [Hentry | Hentry];
          [inversion Hentry; subst; split; [vm_compute |]; reflexivity |]).
  contradiction.
Qed.

Lemma detected_clause_by_category_witness :
  let text := "A cancellation fee applies." in
  let c := mkClause "Early Termination Penalty" "A cancellation fee applies..."
                    None "High" "penalty" (JS.ofZ 8) in
  In c (detectRiskyClausesRuleBased text)
  /\ JS.get detectorTable (category c) = Some (title c, severity c, riskScore c)
  /\ explanation c = None.
Proof.
  assert (H : In (mkClause "Early Termination Penalty" "A cancellation fee applies..."
                           None "High" "penalty" (JS.ofZ 8))
                 (detectRiskyClausesRuleBased "A cancellation fee applies."))
    by (vm_compute; left; reflexivity).
  split; [exact H | exact (detected_clause_by_category _ _ H)].
Defined.

Lemma allAscii_complete (a : ascii) : In a allAscii.
Proof.
  unfold allAscii. rewrite <- (ascii_nat_embedding a).
  apply in_map. apply in_seq. pose proof (nat_ascii_bounded a). lia.
Qed.

(** A code unit that is no letter matches no literal letter, case ignored. *)
Lemma sameLetter_needs_letter (a c : ascii) :
  isLetter a = false -> isLetter c = true -> Regex.sameLetter a c = false.
Proof.
  assert (Hall : forallb (fun x =>
                   forallb (fun y =>
                     implb (negb (isLetter x) && isLetter y)
                           (negb (Regex.sameLetter x y))) allAscii) allAscii = true)
    by (vm_compute; reflexivity).
  rewrite forallb_forall in Hall. specialize (Hall a (allAscii_complete a)).
  rewrite forallb_forall in Hall. specialize (Hall c (allAscii_complete c)).
  intros Ha Hc. rewrite Ha, Hc in Hall. simpl in Hall.
  destruct (Regex.sameLetter a c); [discriminate | reflexivity].
Qed.

Lemma scan_without_letters (c : ascii) (r : list Regex.atom) (s : string) :
  isLetter c = true -> noLetters s = true ->
  forall skip : nat, Regex.scan (Regex.Chr c :: r) skip s = [].
Proof.
  intros Hc. induction s as [| a s IH]; intros Hs skip.
  - reflexivity.
  - cbn [noLetters] in Hs. apply andb_true_iff in Hs. destruct Hs as [Ha Hs].
    apply negb_true_iff in Ha.
    cbn [Regex.scan]. destruct skip as [| k]; [| apply IH; exact Hs].
    cbn [Regex.exec]. rewrite (sameLetter_needs_letter a c Ha Hc).
    apply IH. exact Hs.
Qed.

Lemma matchAll_without_letters (pattern text : string) :
  startsWithLetter pattern = true -> noLetters text = true ->
  Regex.matchAll pattern text = [].
Proof.
  unfold startsWithLetter, Regex.matchAll. intros Hp Ht.
  destruct (Regex.parse pattern) as [| [c | | |] r]; try discriminate.
  apply scan_without_letters; assumption.
Qed.

Lemma flat_map_nil {A B : Type} (f : A -> list B) (l : list A) :
  (forall x, In x l -> f x = []) -> flat_map f l = [].
Proof.
  induction l as [| x l IH]; intros H; [reflexivity |].
  cbn [flat_map]. rewrite (H x (or_introl eq_refl)). apply IH.
  intros y Hy. apply H. now right.
Qed.

Lemma riskPatterns_start_with_letters :
  forallb (fun entry => forallb startsWithLetter (patterns (snd entry))) riskPatterns
  = true.
Proof.
  vm_compute. reflexivity.
Qed.

(** A text without any letter (empty, blank, digits, punctuation) yields no
    clause. *)
Theorem detector_needs_letters (text : string) :
  noLetters text = true -> detectRiskyClausesRuleBased text = [].
Proof.
  intros Ht. unfold detectRiskyClausesRuleBased.
  rewrite flat_map_nil; [reflexivity |].
  intros [riskType config] Hentry. unfold clausesOfRisk. cbn [fst snd].
  apply flat_map_nil. intros pattern Hpattern.
  unfold clausesOfPattern. rewrite matchAll_without_letters; [reflexivity | | exact Ht].
  pose proof riskPatterns_start_with_letters as Hall.
  rewrite forallb_forall in Hall. specialize (Hall _ Hentry). cbn [snd] in Hall.
  rewrite forallb_forall in Hall. apply Hall. exact Hpattern.
Qed.

Lemma detector_needs_letters_witness :
  noLetters "  12.50 / 2024-01-31 !? " = true
  /\ detectRiskyClausesRuleBased "  12.50 / 2024-01-31 !? " = [].
Proof.
  assert (H : noLetters "  12.50 / 2024-01-31 !? " = true) by reflexivity.
  split; [exact H | exact (detector_needs_letters _ H)].
Defined.

(** ** The pipeline without detection *)

(** When the detector finds nothing and the bulk call fails or its reply
    does not parse, the result has no clause, the score 20 and the
    recommendation "Safe to sign". *)
Theorem nothing_detected_is_safe (bulk : completion) (oracle : nat -> option string)
    (text fileName : string) :
  detectRiskyClausesRuleBased text = [] ->
  bulk = CallFails \/ bulk = BadJson ->
  riskyClauses (analyzeContract bulk oracle text fileName) = []
  /\ overallRiskScore (analyzeContract bulk oracle text fileName) = Some 20
  /\ recommendation (analyzeContract bulk oracle text fileName) = "Safe to sign".
Proof.
  intros Hnone [Hbulk | Hbulk]; subst bulk;
    unfold analyzeContract, analyzeContractTry, analyzeContractCatch,
           createFallbackAnalysis;
    cbv zeta; cbn [asReply aiRiskyClauses JS.or_arr riskyClauses overallRiskScore
                   recommendation List.length Nat.eqb];
    rewrite ?Hnone; repeat split.
Qed.

Lemma nothing_detected_is_safe_witness :
  detectRiskyClausesRuleBased "Rent is due on the first day of each month." = []
  /\ (CallFails = CallFails \/ CallFails = BadJson)
  /\ riskyClauses (analyzeContract CallFails (fun _ => None)
                     "Rent is due on the first day of each month." "lease.pdf") = []
  /\ overallRiskScore (analyzeContract CallFails (fun _ => None)
                         "Rent is due on the first day of each month." "lease.pdf") = Some 20
  /\ recommendation (analyzeContract CallFails (fun _ => None)
                       "Rent is due on the first day of each month." "lease.pdf")
     = "Safe to sign".
Proof.
  assert (H1 : detectRiskyClausesRuleBased "Rent is due on the first day of each month." = [])
    by (vm_compute; reflexivity).
  assert (H2 : CallFails = CallFails \/ CallFails = BadJson) by (left; reflexivity).
  split; [exact H1 |]. split; [exact H2 |].
  exact (nothing_detected_is_safe CallFails (fun _ => None) _ "lease.pdf" H1 H2).
Defined.

(** ** The scorer on arbitrary severities and categories *)

Lemma validSeverity_dec (c : clause) : {validSeverity c} + {~ validSeverity c}.
Proof.
  unfold validSeverity.
  destruct (string_dec (severity c) "Low"); [left; auto |].
  destruct (string_dec (severity c) "Medium"); [left; auto |].
  destruct (string_dec (severity c) "High"); [left; auto |].
  right. intuition.
Qed.

Lemma score_invalid (cs : list clause) :
  cs <> [] -> ~ Forall validSeverity cs -> calculateOverallRiskScore cs = None.
Proof.
  intros _ Hbad. apply score_poisoned.
  apply (neg_Forall_Exists_neg validSeverity_dec) in Hbad.
  eapply Exists_impl; [| exact Hbad]. intros c Hc. now left.
Qed.

Lemma weighable_dec (c : clause) :
  {validSeverity c /\ plainCategory c} + {~ (validSeverity c /\ plainCategory c)}.
Proof.
  destruct (validSeverity_dec c) as [Hv | Hv]; [| right; tauto].
  destruct (in_dec string_dec (category c) JS.prototypeKeys) as [Hin | Hin].
  - right. unfold plainCategory. tauto.
  - left. split; assumption.
Qed.

(** On a non-empty list of at most a thousand clauses whose scores are not
    negative, the overall score is [NaN] exactly when some clause has a
    severity other than Low, Medium and High or a category that names an
    inherited property. *)
Theorem score_is_NaN_iff (cs : list clause) :
  cs <> [] ->
  (List.length cs <= manyClauses)%nat ->
  Forall (fun c => nonneg (riskScore c)) cs ->
  (calculateOverallRiskScore cs = None
   <-> ~ Forall (fun c => validSeverity c /\ plainCategory c) cs).
Proof.
  intros Hne Hlen Hpos. split.
  - intros Hnan Hv.
    assert (Hall : Forall scorable cs).
    { rewrite Forall_forall in *. intros c Hc.
      destruct (Hv c Hc) as [H1 H2]. split; [exact H1 | split; [exact H2 |]].
      apply Hpos. exact Hc. }
    destruct (score_number cs Hne Hall Hlen) as [z [Hz _]]. congruence.
  - intros Hbad. apply score_poisoned.
    apply (neg_Forall_Exists_neg weighable_dec) in Hbad.
    eapply Exists_impl; [| exact Hbad]. intros c Hc.
    destruct (validSeverity_dec c) as [Hv | Hv]; [| now left].
    right. destruct (in_dec string_dec (category c) JS.prototypeKeys) as [Hin | Hin];
      [exact Hin |].
    exfalso. apply Hc. split; assumption.
Qed.

Lemma score_is_NaN_iff_witness :
  let cs := [sampleClause 9 "High" "penalty"; sampleClause 6 "Medium" "toString"] in
  cs <> []
  /\ (List.length cs <= manyClauses)%nat
  /\ Forall (fun c => nonneg (riskScore c)) cs
  /\ (calculateOverallRiskScore cs = None
      <-> ~ Forall (fun c => validSeverity c /\ plainCategory c) cs).
Proof.
  assert (H : [sampleClause 9 "High" "penalty"; sampleClause 6 "Medium" "toString"] <> [])
    by discriminate.
  assert (H' : (List.length
                  [sampleClause 9 "High" "penalty"; sampleClause 6 "Medium" "toString"]
                <= manyClauses)%nat)
    by (unfold manyClauses; simpl List.length; lia).
  assert (H'' : Forall (fun c => nonneg (riskScore c))
                  [sampleClause 9 "High" "penalty"; sampleClause 6 "Medium" "toString"])
    by (repeat constructor).
  split; [exact H |]. split; [exact H' |]. split; [exact H'' |].
  exact (score_is_NaN_iff _ H H' H'').
Defined.

(** With such a clause in the list the two score thresholds never fire: the
    recommendation follows the number of High clauses alone, and is "Safe
    to sign" when there is none. *)
Theorem unknown_severity_recommendation (cs : list clause) :
  cs <> [] -> ~ Forall validSeverity cs ->
  generateRecommendation (calculateOverallRiskScore cs) cs
  = if 2 <=? highCount cs then "Avoid signing"
    else if 1 <=? highCount cs then "Review carefully"
    else "Safe to sign".
Proof.
  intros Hne Hbad. rewrite (score_invalid cs Hne Hbad).
  unfold generateRecommendation. cbv zeta.
  rewrite filter_isHigh_count. reflexivity.
Qed.

Lemma unknown_severity_recommendation_witness :
  let cs := [sampleClause 10 "Severe" "termination"] in
  cs <> [] /\ ~ Forall validSeverity cs
  /\ generateRecommendation (calculateOverallRiskScore cs) cs
     = if 2 <=? highCount cs then "Avoid signing"
       else if 1 <=? highCount cs then "Review carefully"
       else "Safe to sign".
Proof.
  assert (H1 : [sampleClause 10 "Severe" "termination"] <> []) by discriminate.
  assert (H2 : ~ Forall validSeverity [sampleClause 10 "Severe" "termination"]).
  { intros H. inversion H as [| ? ? Hc _]; subst.
    destruct Hc as [Hc | [Hc | Hc]]; discriminate Hc. }
  split; [exact H1 |]. split; [exact H2 |].
  exact (unknown_severity_recommendation _ H1 H2).
Defined.

(** ** The order of the clauses *)

(** The score depends on the order of the clauses: the total is added up in
    doubles, in list order, and the same four clauses score 55 in one order
    and 54 in another. *)
Theorem score_depends_on_order :
  let a := sampleClause 6 "High" "refund-restrictions" in
  let b := sampleClause 8 "High" "arbitration" in
  let c := sampleClause 10 "High" "termination" in
  let d := sampleClause 5 "Medium" "non-compete" in
  Permutation [a; b; c; d] [b; c; d; a]
  /\ calculateOverallRiskScore [a; b; c; d] = Some 55
  /\ calculateOverallRiskScore [b; c; d; a] = Some 54.
Proof.
  cbv zeta. split.
  - change (Permutation
              ([sampleClause 6 "High" "refund-restrictions"]
               ++ [sampleClause 8 "High" "arbitration";
                   sampleClause 10 "High" "termination";
                   sampleClause 5 "Medium" "non-compete"])
              ([sampleClause 8 "High" "arbitration";
                sampleClause 10 "High" "termination";
                sampleClause 5 "Medium" "non-compete"]
               ++ [sampleClause 6 "High" "refund-restrictions"])).
    apply Permutation_app_comm.
  - split; vm_compute; reflexivity.
Qed.

(** ** Many clauses *)

(** Eight scorable clauses or more, up to a thousand, always score at least
    70 and are recommended "Avoid signing", whatever the clauses are. *)
Theorem eight_clauses_avoid_signing (cs : list clause) :
  Forall scorable cs -> (8 <= List.length cs <= manyClauses)%nat ->
  exists z : Z,
    calculateOverallRiskScore cs = Some z
    /\ 70 <= z <= 100
    /\ generateRecommendation (Some z) cs = "Avoid signing".
Proof.
  intros Hv Hlen.
  assert (Hne : cs <> []) by (destruct cs; [simpl in Hlen; lia | discriminate]).
  destruct (score_number cs Hne Hv ltac:(lia)) as [z [Hz Hb]].
  exists z. split; [exact Hz |].
  assert (Hz' : 70 <= z <= 100) by (unfold floorOf in Hb; lia).
  split; [exact Hz' |].
  unfold generateRecommendation, JS.ge. cbv zeta.
  destruct (Z.leb_spec 70 z); [reflexivity | lia].
Qed.

Lemma eight_clauses_avoid_signing_witness :
  let cs := repeat (sampleClause 1 "Low" "hidden-fees") 8 in
  Forall scorable cs /\ (8 <= List.length cs <= manyClauses)%nat
  /\ exists z : Z,
       calculateOverallRiskScore cs = Some z
       /\ 70 <= z <= 100
       /\ generateRecommendation (Some z) cs = "Avoid signing".
Proof.
  assert (H0 : scorable (sampleClause 1 "Low" "hidden-fees")).
  { unfold scorable, validSeverity, plainCategory.
    cbn [sampleClause severity category riskScore].
    split; [auto |]. split; [| vm_compute; exact I].
    simpl. intros K. repeat (destruct K as [K | K]; [discriminate K |]). exact K. }
  assert (H1 : Forall scorable (repeat (sampleClause 1 "Low" "hidden-fees") 8))
    by (simpl; repeat (apply Forall_cons; [exact H0 |]); apply Forall_nil).
  assert (H2 : (8 <= List.length (repeat (sampleClause 1 "Low" "hidden-fees") 8)
                <= manyClauses)%nat)
    by (unfold manyClauses; simpl List.length; lia).
  split; [exact H1 |]. split; [exact H2 |].
  exact (eight_clauses_avoid_signing _ H1 H2).
Defined.

(** ** The explanation calls *)

Lemma enhanceFrom_calls (oracle : nat -> option string) (clauses : list clause) :
  forall k : nat,
    snd (enhanceFrom oracle k clauses)
    = (k + List.length (filter lacksExplanation clauses))%nat.
Proof.
  induction clauses as [| c rest IH]; intros k; cbn [enhanceFrom filter].
  - cbn [snd List.length]. lia.
  - destruct (lacksExplanation c).
    + specialize (IH (S k)). destruct (enhanceFrom oracle (S k) rest) as [enhanced k'].
      cbn [snd List.length] in *. lia.
    + specialize (IH k). destruct (enhanceFrom oracle k rest) as [enhanced k'].
      cbn [snd] in *. exact IH.
Qed.

(** One explanation call is issued per merged clause that lacks an
    explanation, none for the others: at most ten per analysis. *)
Theorem explanation_calls_bounded (oracle : nat -> option string)
    (ruleBased modelBased : list clause) :
  let combined := combineRiskyClauses ruleBased modelBased in
  snd (enhanceFrom oracle 0 combined)
  = List.length (filter lacksExplanation combined)
  /\ (snd (enhanceFrom oracle 0 combined) <= 10)%nat.
Proof.
  cbv zeta. rewrite enhanceFrom_calls. split; [reflexivity |].
  pose proof (filter_length_le lacksExplanation
                (combineRiskyClauses ruleBased modelBased)) as Hle.
  pose proof (combineRiskyClauses_length ruleBased modelBased). simpl. lia.
Qed.

Lemma defaulted_explained (c : clause) :
  lacksExplanation c = false -> defaulted c = c.
Proof.
  unfold lacksExplanation, defaulted, setExplanation, JS.or_field.
  destruct c as [t q e s cat r]. cbn [explanation title quote severity category riskScore].
  destruct e as [[e |] |]; [| reflexivity | discriminate].
  intros He. rewrite He. reflexivity.
Qed.

Lemma defaulted_lacking (c : clause) :
  lacksExplanation c = true ->
  defaulted c = setExplanation c (getDefaultExplanation (category c)).
Proof.
  unfold lacksExplanation, defaulted, JS.or_field.
  destruct (explanation c) as [[e |] |]; [| discriminate | reflexivity].
  intros He. rewrite He. reflexivity.
Qed.

Lemma enhanceFrom_all_fail (clauses : list clause) :
  forall k : nat, fst (enhanceFrom (fun _ => None) k clauses) = map defaulted clauses.
Proof.
  induction clauses as [| c rest IH]; intros k; cbn [enhanceFrom map]; [reflexivity |].
  destruct (lacksExplanation c) eqn:Hlacks.
  - specialize (IH (S k)). destruct (enhanceFrom (fun _ => None) (S k) rest) as [enhanced k'].
    cbn [fst] in *. rewrite IH, (defaulted_lacking c Hlacks). reflexivity.
  - specialize (IH k). destruct (enhanceFrom (fun _ => None) k rest) as [enhanced k'].
    cbn [fst] in *. rewrite IH, (defaulted_explained c Hlacks). reflexivity.
Qed.

(** When every explanation call fails, the explanation step fills in
    exactly what the [catch] block of [analyzeContract] fills in: the
    default text of the category where the explanation is missing or empty,
    the clause as it is otherwise. *)
Theorem enhance_all_calls_fail (clauses : list clause) :
  enhanceClausesWithExplanations (fun _ => None) clauses = map defaulted clauses.
Proof.
  unfold enhanceClausesWithExplanations. apply enhanceFrom_all_fail.
Qed.

(** Clauses that all carry a non-empty explanation come back unchanged,
    whatever the explanation service would answer. *)
Theorem enhance_explained_unchanged (oracle : nat -> option string)
    (clauses : list clause) :
  Forall (fun c => lacksExplanation c = false) clauses ->
  enhanceClausesWithExplanations oracle clauses = clauses.
Proof.
  unfold enhanceClausesWithExplanations. intros Hall.
  generalize 0%nat. induction Hall as [| c rest Hc _ IH]; intros k; [reflexivity |].
  cbn [enhanceFrom]. rewrite Hc. specialize (IH k).
  destruct (enhanceFrom oracle k rest) as [enhanced k']. cbn [fst] in *.
  now rewrite IH.
Qed.

Lemma enhance_explained_unchanged_witness :
  let cs := [mkClause "Late fee" "A late fee of 5% applies" (Some (JS.Str "Costs money."))
                      "Low" "hidden-fees" (JS.ofZ 3)] in
  Forall (fun c => lacksExplanation c = false) cs
  /\ enhanceClausesWithExplanations (fun _ => Some "ignored") cs = cs.
Proof.
  assert (H : Forall (fun c => lacksExplanation c = false)
                [mkClause "Late fee" "A late fee of 5% applies" (Some (JS.Str "Costs money."))
                          "Low" "hidden-fees" (JS.ofZ 3)])
    by (constructor; [reflexivity | constructor]).
  split; [exact H | exact (enhance_explained_unchanged _ _ H)].
Defined.

(** ** The merger, again *)

(** Model clauses that all share category and first 50 code units of quote
    with some rule-based clause add nothing: the merged list is the first
    ten rule-based clauses. *)
Theorem combine_only_duplicates (ruleBased modelBased : list clause) :
  Forall (fun m => exists r, In r ruleBased /\ sameKey 50 r m) modelBased ->
  combineRiskyClauses ruleBased modelBased = firstn 10 ruleBased.
Proof.
  intros Hdup. unfold combineRiskyClauses.
  now rewrite fold_push_all_duplicates.
Qed.

Lemma combine_only_duplicates_witness :
  let r := mkClause "Non-Compete Restriction" "Employee shall not compete..." None
                    "High" "non-compete" (JS.ofZ 9) in
  let m := mkClause "Non-compete" "Employee shall not compete..." (Some (JS.Str "Limits work."))
                    "Medium" "non-compete" (JS.ofZ 6) in
  Forall (fun m' => exists r', In r' [r] /\ sameKey 50 r' m') [m]
  /\ combineRiskyClauses [r] [m] = firstn 10 [r].
Proof.
  assert (H : Forall (fun m' => exists r', In r' [mkClause "Non-Compete Restriction"
                                   "Employee shall not compete..." None "High" "non-compete"
                                   (JS.ofZ 9)]
                                 /\ sameKey 50 r' m')
                [mkClause "Non-compete" "Employee shall not compete..." (Some (JS.Str "Limits work."))
                          "Medium" "non-compete" (JS.ofZ 6)]).
  { constructor; [| constructor]. eexists. split; [left; reflexivity |].
    split; reflexivity. }
  split; [exact H | exact (combine_only_duplicates _ _ H)].
Defined.

(** ** The two fallbacks compared *)

(** A reply that does not parse, followed by explanation calls that all
    fail, gives the clauses of the [catch] block cut at ten. *)
Theorem unparsable_reply_is_capped_fallback (oracle : nat -> option string)
    (text fileName : string) :
  riskyClauses (analyzeContract BadJson (fun _ => None) text fileName)
  = firstn 10 (riskyClauses (analyzeContract CallFails oracle text fileName)).
Proof.
  change (analyzeContract CallFails oracle text fileName)
    with (analyzeContractCatch text fileName).
  destruct (analyzeContractCatch_result text fileName) as (Hcatch & _).
  rewrite Hcatch.
  destruct (analyzeContractTry_BadJson (fun _ => None) text fileName)
    as (r & Htry & Hclauses & _).
  unfold analyzeContract. rewrite Htry, Hclauses.
  rewrite combine_with_itself.
  unfold enhanceClausesWithExplanations. rewrite enhanceFrom_all_fail.
  symmetry. apply firstn_map.
Qed.

(** ** Every result *)

Lemma enhance_explanations_set (oracle : nat -> option string) (clauses : list clause) :
  Forall (fun c => explanation c <> None)
         (enhanceClausesWithExplanations oracle clauses).
Proof.
  unfold enhanceClausesWithExplanations.
  pose proof (enhanceFrom_explained oracle clauses 0) as H2.
  induction H2 as [| c d cs ds Hcd _ IH]; constructor; [apply Hcd | exact IH].
Qed.

(** Whatever the bulk call and the explanation calls do, the result is
    consistent: its score is the score of the clauses it returns, its
    recommendation is the one selected from that score and those clauses,
    and each clause carries an explanation. *)
Theorem analyzeContract_consistent (bulk : completion) (oracle : nat -> option string)
    (text fileName : string) :
  let r := analyzeContract bulk oracle text fileName in
  overallRiskScore r = calculateOverallRiskScore (riskyClauses r)
  /\ recommendation r = generateRecommendation (overallRiskScore r) (riskyClauses r)
  /\ Forall (fun c => explanation c <> None) (riskyClauses r).
Proof.
  cbv zeta.
  assert (Hcatch :
            overallRiskScore (analyzeContractCatch text fileName)
            = calculateOverallRiskScore (riskyClauses (analyzeContractCatch text fileName))
            /\ recommendation (analyzeContractCatch text fileName)
               = generateRecommendation
                   (overallRiskScore (analyzeContractCatch text fileName))
                   (riskyClauses (analyzeContractCatch text fileName))
            /\ Forall (fun c => explanation c <> None)
                 (riskyClauses (analyzeContractCatch text fileName))).
  { destruct (analyzeContractCatch_result text fileName)
      as (Hclauses & Hscore & Hadvice & _).
    split; [exact Hscore |]. split; [exact Hadvice |].
    rewrite Hclauses. apply Forall_map. rewrite Forall_forall. intros c _. discriminate. }
  destruct bulk as [| | | reply].
  - exact Hcatch.
  - destruct (analyzeContractTry_BadJson oracle text fileName)
      as (r & Htry & Hclauses & Hscore & Hadvice & _).
    unfold analyzeContract. rewrite Htry.
    split; [exact Hscore |]. split; [exact Hadvice |].
    rewrite Hclauses. apply enhance_explanations_set.
  - exact Hcatch.
  - unfold analyzeContract, analyzeContractTry.
    cbn [riskyClauses overallRiskScore recommendation].
    split; [reflexivity |]. split; [reflexivity |].
    apply enhance_explanations_set.
Qed.

(** ** What the model's reply cannot do *)

(** With a reply that parses to an object of the expected shape, the result
    lists first the rule-based clauses, in the detector's order and with
    their title, quote, severity, category and score untouched, then model
    clauses that share category and first 50 code units of quote with no
    rule-based clause; the whole cut at ten.  A reply that parses and makes
    the block throw gives the result of a failed call, which is not cut. *)
Theorem reply_cannot_displace_detections (reply : aiAnalysis)
    (oracle : nat -> option string) (text fileName : string) :
  (exists kept : list clause,
     incl kept (JS.or_arr (aiRiskyClauses reply) [])
     /\ Forall (fun m => forall r, In r (detectRiskyClausesRuleBased text) ->
                                   ~ sameKey 50 r m) kept
     /\ Forall2 explained
          (firstn 10 (detectRiskyClausesRuleBased text ++ kept))
          (riskyClauses (analyzeContract (Parsed reply) oracle text fileName)))
  /\ analyzeContract Unusable oracle text fileName
     = analyzeContract CallFails oracle text fileName.
Proof.
  split; [| reflexivity].
  destruct (combineRiskyClauses_shape (detectRiskyClausesRuleBased text)
              (JS.or_arr (aiRiskyClauses reply) [])) as [kept [Heq [Hincl Hkeys]]].
  exists kept. split; [exact Hincl |]. split; [exact Hkeys |].
  unfold analyzeContract, analyzeContractTry. cbn [riskyClauses].
  rewrite <- Heq. unfold enhanceClausesWithExplanations.
  apply enhanceFrom_explained.
Qed.

(** ** The fallback clauses and the clause schema *)

Lemma quoteOf_nonempty (sentence : string) : quoteOf sentence <> "".
Proof.
  intros H. apply (f_equal String.length) in H.
  unfold quoteOf in H. rewrite string_length_append in H.
  change (String.length "...") with 3%nat in H. simpl in H. lia.
Qed.

(** Every clause the [catch] block returns passes the validators of the
    clause schema of the contract model: title, quote and explanation
    present and within their lengths, severity and category in their
    enumerations, score within 1..10. *)
Theorem fallback_clauses_pass_schema (oracle : nat -> option string)
    (text fileName : string) :
  Forall (fun c => Contract.validRiskyClause c = true)
         (riskyClauses (analyzeContract CallFails oracle text fileName)).
Proof.
  change (analyzeContract CallFails oracle text fileName)
    with (analyzeContractCatch text fileName).
  destruct (analyzeContractCatch_result text fileName) as (Hclauses & _).
  rewrite Hclauses. apply Forall_map. rewrite Forall_forall. intros c Hin.
  destruct (detected_origin text c Hin)
    as (riskType & config & pattern & m & sentence & Hentry & _ & _ & _ & _ & Hc).
  subst c. unfold Contract.validRiskyClause, setExplanation.
  cbn [title quote explanation severity category riskScore JS.or_field].
  assert (Hq1 : String.eqb (quoteOf sentence) "" = false)
    by (apply String.eqb_neq; apply quoteOf_nonempty).
  assert (Hq2 : (String.length (quoteOf sentence) <=? 1000)%nat = true)
    by (apply Nat.leb_le; pose proof (quoteOf_length sentence); lia).
  rewrite Hq1, Hq2.
  unfold riskPatterns in Hentry.
  repeat (destruct Hentry as [Hentry | Hentry];
          [inversion Hentry; subst; vm_compute; reflexivity |]).
  contradiction.
Qed.

(** * Properties of the contract model and of the routes *)

(** ** Risk level and recommendation *)

(** The risk level shown for a score and the recommendation computed from
    it never contradict each other: a High level comes with "Avoid
    signing", a Medium level never with "Safe to sign", and "Safe to sign"
    only with a Low level. *)
Theorem recommendation_agrees_with_riskLevel (score : option Z) (cs : list clause) :
  (Contract.riskLevel (Some score) = "High" ->
   generateRecommendation score cs = "Avoid signing")
  /\ (Contract.riskLevel (Some score) = "Medium" ->
      generateRecommendation score cs <> "Safe to sign")
  /\ (generateRecommendation score cs = "Safe to sign" ->
      Contract.riskLevel (Some score) = "Low").
Proof.
  unfold Contract.riskLevel, generateRecommendation. cbv zeta.
  destruct (JS.ge score 70) eqn:H70; cbn [orb].
  - repeat split; discriminate.
  - destruct (JS.ge score 40) eqn:H40; cbn [orb].
    + split; [discriminate |]. split.
      * intros _. destruct (2 <=? _); discriminate.
      * destruct (2 <=? _); discriminate.
    + split; [discriminate |]. split; [discriminate | reflexivity].
Qed.

(** ** One scale for the filter, the model and the client *)

(** For each of the three levels, the score filter of the contract list
    selects exactly the contracts whose virtual [riskLevel] is that level,
    and the client's [getRiskLevel] shows the same level. *)
Theorem risk_filter_matches_level (level : string) (score : Z) :
  In level ["Low"; "Medium"; "High"] ->
  exists r : Routes.range,
    Routes.riskFilter (Some level) = Some r
    /\ (Routes.matches r score = true
        <-> Contract.riskLevel (Some (Some score)) = level)
    /\ Api.getRiskLevel (Some score) = Contract.riskLevel (Some (Some score)).
Proof.
  intros Hlevel.
  unfold Contract.riskLevel, Api.getRiskLevel, JS.ge.
  destruct Hlevel as [H | [H | [H | []]]]; subst level;
    eexists; (split; [reflexivity |]); (split; [| reflexivity]);
    unfold Routes.matches; cbn [Routes.gte Routes.lt andb];
    destruct (Z.leb_spec 70 score); destruct (Z.leb_spec 40 score);
    destruct (Z.ltb_spec score 40); destruct (Z.ltb_spec score 70);
    cbn [andb]; split; intros; try reflexivity; try discriminate; try lia.
Qed.

Lemma risk_filter_matches_level_witness :
  In "Medium" ["Low"; "Medium"; "High"]
  /\ exists r : Routes.range,
       Routes.riskFilter (Some "Medium") = Some r
       /\ (Routes.matches r 55 = true
           <-> Contract.riskLevel (Some (Some 55)) = "Medium")
       /\ Api.getRiskLevel (Some 55) = Contract.riskLevel (Some (Some 55)).
Proof.
  assert (H : In "Medium" ["Low"; "Medium"; "High"]) by (right; left; reflexivity).
  split; [exact H | exact (risk_filter_matches_level "Medium" 55 H)].
Defined.

(** ** The dashboard statistics *)

Lemma labelled_cons (level : string) (z : Z) (scores : list Z) :
  Contract.labelled level (z :: scores)
  = Contract.cond (String.eqb (Contract.riskLevel (Some (Some z))) level)
    + Contract.labelled level scores.
Proof.
  unfold Contract.labelled. cbn [filter].
  destruct (String.eqb _ level); cbn [List.length Contract.cond]; lia.
Qed.

Lemma level_tests (z : Z) :
  Contract.cond (70 <=? z)
  = Contract.cond (String.eqb (Contract.riskLevel (Some (Some z))) "High")
  /\ Contract.cond ((40 <=? z) && (z <? 70))
     = Contract.cond (String.eqb (Contract.riskLevel (Some (Some z))) "Medium")
  /\ Contract.cond (z <? 40)
     = Contract.cond (String.eqb (Contract.riskLevel (Some (Some z))) "Low").
Proof.
  unfold Contract.riskLevel, JS.ge.
  destruct (Z.leb_spec 70 z); destruct (Z.leb_spec 40 z);
    destruct (Z.ltb_spec z 40); destruct (Z.ltb_spec z 70); try lia;
    repeat split.
Qed.

Lemma groupStep_fold (scores : list Z) :
  forall (s : Contract.userStats) (sum : Z),
    fold_left Contract.groupStep scores (s, sum)
    = (Contract.mkStats
         (Contract.totalContracts s + Z.of_nat (List.length scores))
         (Contract.avgRiskScore s)
         (Contract.highRiskContracts s + Contract.labelled "High" scores)
         (Contract.mediumRiskContracts s + Contract.labelled "Medium" scores)
         (Contract.lowRiskContracts s + Contract.labelled "Low" scores),
       sum + fold_right Z.add 0 scores).
Proof.
  induction scores as [| z scores IH]; intros s sum.
  - destruct s. cbn. repeat f_equal; lia.
  - cbn [fold_left]. unfold Contract.groupStep at 2. rewrite IH.
    cbn [Contract.totalContracts Contract.avgRiskScore Contract.highRiskContracts
         Contract.mediumRiskContracts Contract.lowRiskContracts].
    rewrite !labelled_cons.
    destruct (level_tests z) as (Hh & Hm & Hl). rewrite Hh, Hm, Hl.
    cbn [fold_right List.length].
    f_equal; [f_equal |]; lia.
Qed.

(** The three risk counters of the dashboard split the user's contracts:
    they add up to the total, and each counts the contracts the virtual
    [riskLevel] gives its level. *)
Theorem getUserStats_buckets (scores : list Z) :
  let s := Contract.getUserStats (Some scores) in
  Contract.totalContracts s = Z.of_nat (List.length scores)
  /\ Contract.highRiskContracts s = Contract.labelled "High" scores
  /\ Contract.mediumRiskContracts s = Contract.labelled "Medium" scores
  /\ Contract.lowRiskContracts s = Contract.labelled "Low" scores
  /\ Contract.highRiskContracts s + Contract.mediumRiskContracts s
     + Contract.lowRiskContracts s = Contract.totalContracts s.
Proof.
  cbv zeta.
  assert (Hsplit : forall l, Contract.labelled "High" l + Contract.labelled "Medium" l
                             + Contract.labelled "Low" l = Z.of_nat (List.length l)).
  { induction l as [| z l IH]; [reflexivity |].
    rewrite !labelled_cons. unfold Contract.riskLevel, JS.ge.
    destruct (70 <=? z); [| destruct (40 <=? z)];
      change (Z.of_nat (List.length (z :: l))) with (Z.of_nat (S (List.length l)));
      simpl Contract.cond; lia. }
  destruct scores as [| z scores]; [cbn; repeat split |].
  unfold Contract.getUserStats. rewrite groupStep_fold.
  cbn [Contract.totalContracts Contract.highRiskContracts Contract.mediumRiskContracts
       Contract.lowRiskContracts Contract.noStats].
  specialize (Hsplit (z :: scores)). repeat split; lia.
Qed.

(** ** Paging *)

Lemma ceilDiv_Z (a b : Z) : 0 < b -> Routes.ceilDiv a b = - ((- a) / b).
Proof.
  intros Hb. unfold Routes.ceilDiv, Qceiling. f_equal.
  rewrite Zdiv_Qdiv. apply Qfloor_comp.
  rewrite inject_Z_opp. field.
  intros H. apply (inject_Z_injective b 0) in H. lia.
Qed.

(** [ceilDiv a b] is the least number of blocks of [b] that cover [a]. *)
Lemma ceilDiv_spec (a b : Z) :
  0 < b -> Routes.ceilDiv a b * b - b < a <= Routes.ceilDiv a b * b.
Proof.
  intros Hb. rewrite (ceilDiv_Z a b Hb).
  pose proof (Z.div_mod (- a) b ltac:(lia)) as Hdm.
  pose proof (Z.mod_pos_bound (- a) b Hb) as Hmod.
  nia.
Qed.

(** With the query parameters the route validates (a page of at least 1, a
    limit of at least 1, defaults 1 and 10) and a count that is not
    negative: nothing is skipped before the first page, a next page is
    announced exactly when documents remain after this one, a previous page
    exactly when documents were skipped, and the announced pages just cover
    the count. *)
Theorem paginate_pages (page limit : option Z) (count : Z) :
  (forall p, page = Some p -> 1 <= p) ->
  (forall l, limit = Some l -> 1 <= l) ->
  0 <= count ->
  let skip := fst (Routes.paginate page limit count) in
  let pg := snd (Routes.paginate page limit count) in
  0 <= skip
  /\ skip = (Routes.currentPage pg - 1) * Routes.limit pg
  /\ (Routes.hasNextPage pg = true <-> skip + Routes.limit pg < count)
  /\ (Routes.hasPrevPage pg = true <-> 0 < skip)
  /\ count <= Routes.totalPages pg * Routes.limit pg < count + Routes.limit pg.
Proof.
  intros Hpage Hlimit Hcount. cbv zeta. unfold Routes.paginate. cbv zeta.
  cbn [fst snd Routes.currentPage Routes.limit Routes.hasNextPage Routes.hasPrevPage
       Routes.totalPages].
  assert (Hp : 1 <= JS.or_int page 1).
  { unfold JS.or_int. destruct page as [p |]; [| lia].
    specialize (Hpage p eq_refl). destruct (Z.eqb_spec p 0); lia. }
  assert (Hl : 1 <= JS.or_int limit 10).
  { unfold JS.or_int. destruct limit as [l |]; [| lia].
    specialize (Hlimit l eq_refl). destruct (Z.eqb_spec l 0); lia. }
  set (p := JS.or_int page 1) in *. set (l := JS.or_int limit 10) in *.
  pose proof (ceilDiv_spec count l ltac:(lia)) as Hceil.
  set (pages := Routes.ceilDiv count l) in *.
  split; [nia |]. split; [reflexivity |].
  split; [| split; [| lia]].
  - rewrite Z.ltb_lt. split; intros H; nia.
  - rewrite Z.ltb_lt. split; intros H; nia.
Qed.

Lemma paginate_pages_witness :
  (forall p, Some 2 = Some p -> 1 <= p)
  /\ (forall l, @None Z = Some l -> 1 <= l)
  /\ 0 <= 25
  /\ let skip := fst (Routes.paginate (Some 2) None 25) in
     let pg := snd (Routes.paginate (Some 2) None 25) in
     0 <= skip
     /\ skip = (Routes.currentPage pg - 1) * Routes.limit pg
     /\ (Routes.hasNextPage pg = true <-> skip + Routes.limit pg < 25)
     /\ (Routes.hasPrevPage pg = true <-> 0 < skip)
     /\ 25 <= Routes.totalPages pg * Routes.limit pg < 25 + Routes.limit pg.
Proof.
  assert (H1 : forall p, Some 2 = Some p -> 1 <= p)
    by (intros p H; inversion H; lia).
  assert (H2 : forall l, @None Z = Some l -> 1 <= l)
    by (intros l H; discriminate H).
  assert (H3 : 0 <= 25) by lia.
  split; [exact H1 |]. split; [exact H2 |]. split; [exact H3 |].
  exact (paginate_pages (Some 2) None 25 H1 H2 H3).
Defined.

(** ** The processing status *)

Lemma updateProcessingStatus_start (doc : Contract.processing) (status : string)
    (message : option string) (now t : Z) :
  Contract.processingStartTime doc = Some t ->
  Contract.processingStartTime (Contract.updateProcessingStatus doc status message now)
  = Some t.
Proof.
  intros Hstart. unfold Contract.updateProcessingStatus. cbv zeta.
  cbn [Contract.processingStartTime]. rewrite Hstart.
  destruct (String.eqb status "processing"); reflexivity.
Qed.

Lemma updateProcessingStatus_message (doc : Contract.processing) (status : string)
    (message : option string) (now : Z) :
  Contract.errorMessage doc <> None ->
  Contract.errorMessage (Contract.updateProcessingStatus doc status message now)
  <> None.
Proof.
  intros Hmsg. unfold Contract.updateProcessingStatus. cbv zeta.
  cbn [Contract.errorMessage].
  destruct message as [m |]; [| exact Hmsg].
  destruct (String.eqb m ""); [exact Hmsg | discriminate].
Qed.

(** Through any sequence of status updates, a start time once set is never
    replaced and an error message once set is never cleared. *)
Theorem status_updates_keep_start_and_message (doc : Contract.processing)
    (calls : list (string * option string * Z)) :
  (forall t, Contract.processingStartTime doc = Some t ->
             Contract.processingStartTime (Contract.runUpdates doc calls) = Some t)
  /\ (Contract.errorMessage doc <> None ->
      Contract.errorMessage (Contract.runUpdates doc calls) <> None).
Proof.
  unfold Contract.runUpdates. revert doc.
  induction calls as [| [[status message] now] calls IH]; intros doc.
  - split; auto.
  - cbn [fold_left fst snd]. destruct (IH (Contract.updateProcessingStatus doc status message now))
      as [IHstart IHmsg].
    split.
    + intros t Ht. apply IHstart. apply updateProcessingStatus_start. exact Ht.
    + intros Hmsg. apply IHmsg. apply updateProcessingStatus_message. exact Hmsg.
Qed.

(** What the clock guarantees about a document: its start time is not after
    [lo] and its processing time is not negative. *)
Lemma updateProcessingStatus_timed (doc : Contract.processing) (status : string)
    (message : option string) (lo now : Z) :
  lo <= now ->
  (forall t, Contract.processingStartTime doc = Some t -> t <= lo) ->
  (forall d, Contract.processingTime doc = Some d -> 0 <= d) ->
  (forall t, Contract.processingStartTime
               (Contract.updateProcessingStatus doc status message now) = Some t ->
             t <= now)
  /\ (forall d, Contract.processingTime
                  (Contract.updateProcessingStatus doc status message now) = Some d ->
                0 <= d).
Proof.
  intros Hclock Hstart Htime. unfold Contract.updateProcessingStatus. cbv zeta.
  cbn [Contract.processingStartTime Contract.processingTime].
  destruct (Contract.processingStartTime doc) as [t0 |] eqn:Hs;
    destruct (String.eqb status "processing");
    destruct (String.eqb status "completed" || String.eqb status "failed");
    split; intros x Hx; try discriminate;
    try (injection Hx as <-); try (specialize (Hstart t0 eq_refl));
    try lia; try (apply Htime; exact Hx).
Qed.

(** On a new document, as long as the clock does not go back, no sequence
    of status updates produces a negative processing time. *)
Theorem processingTime_never_negative (calls : list (string * option string * Z))
    (lo d : Z) :
  Contract.clockFrom lo calls ->
  Contract.processingTime (Contract.runUpdates Contract.pending calls) = Some d ->
  0 <= d.
Proof.
  intros Hclock.
  assert (Hinv : forall (calls : list (string * option string * Z)) doc lo,
             Contract.clockFrom lo calls ->
             (forall t, Contract.processingStartTime doc = Some t -> t <= lo) ->
             (forall x, Contract.processingTime doc = Some x -> 0 <= x) ->
             forall x, Contract.processingTime (Contract.runUpdates doc calls) = Some x ->
                       0 <= x).
  { clear. unfold Contract.runUpdates.
    induction calls as [| [[status message] now] calls IH]; intros doc lo Hclock Hs Ht.
    - exact Ht.
    - cbn [fold_left fst snd]. destruct Hclock as [Hlo Hrest]. cbn [snd] in *.
      destruct (updateProcessingStatus_timed doc status message lo now Hlo Hs Ht)
        as [Hs' Ht'].
      apply (IH _ now Hrest Hs' Ht'). }
  apply (Hinv calls Contract.pending lo Hclock); intros x Hx; discriminate Hx.
Qed.

Lemma processingTime_never_negative_witness :
  let calls := [("processing", None, 1000); ("completed", None, 43500)] in
  Contract.clockFrom 0 calls
  /\ Contract.processingTime (Contract.runUpdates Contract.pending calls) = Some 42500
  /\ 0 <= 42500.
Proof.
  assert (H1 : Contract.clockFrom 0 [("processing", @None string, 1000);
                                     ("completed", @None string, 43500)])
    by (simpl; lia).
  assert (H2 : Contract.processingTime
                 (Contract.runUpdates Contract.pending
                    [("processing", @None string, 1000); ("completed", @None string, 43500)])
               = Some 42500) by reflexivity.
  split; [exact H1 |]. split; [exact H2 |].
  exact (processingTime_never_negative _ 0 42500 H1 H2).
Defined.

(** ** Text extraction and the page count *)

(** [extractTextFromPDF] hands back the parsed text unchanged, and only a
    text with something other than white space in it; the page count the
    upload route derives from such a text is at least 1, as the contract
    schema asks, and is the number of 3000-unit pages that cover the text. *)
Theorem extracted_text_has_pages (outcome : pdfOutcome) (text : string) :
  extractTextFromPDF outcome = inr text ->
  outcome = ParsedPdf (Some text)
  /\ Text.trim text <> ""
  /\ 1 <= Routes.pageCount text
  /\ 3000 * (Routes.pageCount text - 1) < Z.of_nat (String.length text)
     <= 3000 * Routes.pageCount text.
Proof.
  unfold extractTextFromPDF. intros H.
  destruct outcome as [message | message | [t |]]; try discriminate.
  destruct (String.eqb_spec t "") as [Hempty | Hne]; cbn [orb] in H; [discriminate |].
  destruct (Nat.eqb_spec (String.length (Text.trim t)) 0) as [Hblank | Hfull];
    [discriminate |].
  injection H as <-.
  assert (Hlen : 1 <= Z.of_nat (String.length t)).
  { destruct t; [congruence | cbn [String.length]; lia]. }
  pose proof (ceilDiv_spec (Z.of_nat (String.length t)) 3000 ltac:(lia)) as Hceil.
  unfold Routes.pageCount.
  split; [reflexivity |]. split.
  - intros Htrim. rewrite Htrim in Hfull. apply Hfull. reflexivity.
  - lia.
Qed.

Lemma extracted_text_has_pages_witness :
  extractTextFromPDF (ParsedPdf (Some "LEASE AGREEMENT")) = inr "LEASE AGREEMENT"
  /\ ParsedPdf (Some "LEASE AGREEMENT") = ParsedPdf (Some "LEASE AGREEMENT")
  /\ Text.trim "LEASE AGREEMENT" <> ""
  /\ 1 <= Routes.pageCount "LEASE AGREEMENT"
  /\ 3000 * (Routes.pageCount "LEASE AGREEMENT" - 1)
     < Z.of_nat (String.length "LEASE AGREEMENT")
     <= 3000 * Routes.pageCount "LEASE AGREEMENT".
Proof.
  assert (H : extractTextFromPDF (ParsedPdf (Some "LEASE AGREEMENT")) = inr "LEASE AGREEMENT")
    by reflexivity.
  split; [exact H | exact (extracted_text_has_pages _ _ H)].
Defined.

Lemma prefix_append (s t : string) : String.prefix s (s ++ t) = true.
Proof.
  induction s as [| a s IH]; cbn [append String.prefix].
  - destruct t; reflexivity.
  - destruct (ascii_dec a a) as [_ | Hne]; [exact IH | now contradiction Hne].
Qed.

(** Every failure of [extractTextFromPDF], whether reading, parsing or a
    text that is missing or blank, carries a message that begins with
    "Failed to extract text from PDF: "; a blank or missing text is
    reported as "No text content found...". *)
Theorem extraction_failure_message (outcome : pdfOutcome) (message : string) :
  extractTextFromPDF outcome = inl message ->
  String.prefix extractionPrefix message = true
  /\ (forall text, outcome = ParsedPdf text ->
        message = extractionPrefix ++ noTextMessage).
Proof.
  unfold extractTextFromPDF. intros H.
  destruct outcome as [m | m | [t |]].
  - injection H as <-. split; [exact (prefix_append extractionPrefix _) | discriminate].
  - injection H as <-. split; [exact (prefix_append extractionPrefix _) | discriminate].
  - destruct (String.eqb t "" || (String.length (Text.trim t) =? 0)%nat);
      [| discriminate].
    injection H as <-. split; [exact (prefix_append extractionPrefix _) | reflexivity].
  - injection H as <-. split; [exact (prefix_append extractionPrefix _) | reflexivity].
Qed.

Lemma extraction_failure_message_witness :
  extractTextFromPDF (ParsedPdf (Some "   ")) = inl (extractionPrefix ++ noTextMessage)
  /\ String.prefix extractionPrefix (extractionPrefix ++ noTextMessage) = true
  /\ (forall text, ParsedPdf (Some "   ") = ParsedPdf text ->
        extractionPrefix ++ noTextMessage = extractionPrefix ++ noTextMessage).
Proof.
  assert (H : extractTextFromPDF (ParsedPdf (Some "   "))
              = inl (extractionPrefix ++ noTextMessage)) by reflexivity.
  split; [exact H | exact (extraction_failure_message _ _ H)].
Defined.

(** ** The text put in the prompt *)

(** The prompt carries the whole text, and no truncation mark, when the text
    has at most 8000 code units; otherwise its first 8000 code units
    followed by the mark.  Either way that part of the prompt has at most
    8015 code units. *)
Theorem promptExcerpt_bounded (text : string) :
  ((String.length text <= promptLimit)%nat -> promptExcerpt text = text ++ " ")
  /\ ((promptLimit < String.length text)%nat ->
      promptExcerpt text = JS.prefix promptLimit text ++ " ...[truncated]")
  /\ (String.length (promptExcerpt text) <= promptLimit + 15)%nat.
Proof.
  unfold promptExcerpt.
  pose proof (prefix_length promptLimit text) as Hpre.
  destruct (Nat.ltb_spec promptLimit (String.length text)) as [Hlong | Hshort].
  - split; [intros H; lia |]. split; [intros _; reflexivity |].
    rewrite !string_length_append.
    change (String.length " ") with 1%nat.
    change (String.length "...[truncated]") with 14%nat. lia.
  - split.
    + intros _. rewrite (prefix_short _ _ Hshort).
      change (" " ++ "") with " ". reflexivity.
    + split; [intros H; lia |].
      rewrite !string_length_append.
      change (String.length " ") with 1%nat.
      change (String.length "") with 0%nat. lia.
Qed.

